(** * Proposer blocks: envelope codec, decorated block and state store

    A shallow embedding of [vms/proposervm/inner_state.go] (the state store
    [innerState], the decorated block [ProposerBlock] and the envelope codec
    [marshallingProposerBLock]) together with the properties its
    specification states about them.

    Conventions of the embedding.
    - Go integers are [Z] with their wrap-around written out where the code
      converts between widths; a [[]byte] is a [list byte].  Go's nil slice and
      its empty slice have the same contents, and are both [[]] wherever the
      code never tests a slice against nil; the one field the code does test
      ([ProposerBlock.bytes]) is an [option (list byte)] with [None] for nil.
    - Go maps are [gmap]s; a lookup of an absent key yields Go's zero value
      where the code uses the one-result form.
    - Methods with a pointer receiver take the receiver and return its new
      value.  The blocks held by the primary cache are stored by value: no
      property below observes a block through two pointers between a write
      and the write that undoes it.
    - Code outside this file's source (hashing, X.509, the signer, the inner
      block, the key/value store, [time]) is either a field of a record of
      collaborators or modelled where a doc comment says so. *)

From Stdlib Require Import ZArith Lia List.
From Stdlib Require Import Strings.Byte.
From stdpp Require Import gmap strings list fin_maps.
Import ListNotations.

Open Scope Z_scope.

(** ** Bytes and fixed-width big-endian integers *)

#[global] Instance byte_eq_dec : EqDecision byte := Byte.byte_eq_dec.
#[global] Instance byte_countable : Countable byte :=
  inj_countable Byte.to_N Byte.of_N Byte.of_to_N.

Definition len {A} (l : list A) : Z := Z.of_nat (length l).

Definition Z_of_byte (b : byte) : Z := Z.of_N (Byte.to_N b).

(** Go's [byte(v)]: the low eight bits. *)
Definition byte_of_Z (z : Z) : byte :=
  match Byte.of_N (Z.to_N (Z.land z 255)) with
  | Some b => b
  | None => x00
  end.

(** [binary.BigEndian.PutUintN]: the [n] low bytes of [v], most significant
    first. *)
Fixpoint be_encode (n : nat) (v : Z) : list byte :=
  match n with
  | O => []
  | S k => byte_of_Z (Z.shiftr v (8 * Z.of_nat k)) :: be_encode k v
  end.

(** [binary.BigEndian.UintN]: [b[n-1] | b[n-2]<<8 | ...]. *)
Definition be_decode (bs : list byte) : Z :=
  fold_left (fun acc b => Z.lor (Z.shiftl acc 8) (Z_of_byte b)) bs 0.

(** Go's integer conversions. *)
Definition uint16 (z : Z) : Z := z mod 2 ^ 16.
Definition uint32 (z : Z) : Z := z mod 2 ^ 32.
Definition uint64 (z : Z) : Z := z mod 2 ^ 64.
Definition int64 (z : Z) : Z :=
  let u := z mod 2 ^ 64 in if u <? 2 ^ 63 then u else u - 2 ^ 64.

(** Go's [s[lo:hi]] and [copy(dst, src)] (the new contents of [dst]). *)
Definition slice (bs : list byte) (lo hi : Z) : list byte :=
  take (Z.to_nat (hi - lo)) (drop (Z.to_nat lo) bs).

Definition copy_into (dst src : list byte) : list byte :=
  take (length dst) src ++ drop (length src) dst.

(** ** Errors *)

(** The sentinel errors of the package are constructors; [Errorf] is the
    fresh error value built by [fmt.Errorf], and [ErrOther] an error value
    made by a collaborator (inner block, store, signer, packer). *)
Inductive error : Type :=
| ErrInnerBlockNotOracle
| ErrProBlkNotFound
| ErrProBlkBadTimestamp
| ErrInvalidTLSKey
| ErrInvalidNodeID
| ErrInvalidSignature
| ErrProBlkWrongHeight
| ErrProBlkFailedParsing
| Errorf (msg : string)
| ErrOther (msg : string).

#[global] Instance error_eq_dec : EqDecision error.
Proof. solve_decision. Defined.

(** [err.Error()]. *)
Definition error_message (e : error) : string :=
  match e with
  | ErrInnerBlockNotOracle => "core snowman block does not implement snowman.OracleBlock"
  | ErrProBlkNotFound => "proposer block not found"
  | ErrProBlkBadTimestamp => "proposer block timestamp outside tolerance window"
  | ErrInvalidTLSKey => "invalid validator signing key"
  | ErrInvalidNodeID => "could not retrieve nodeID from proposer block certificate"
  | ErrInvalidSignature => "proposer block signature does not verify"
  | ErrProBlkWrongHeight => "proposer block has wrong height"
  | ErrProBlkFailedParsing => "could not parse proposer block"
  | Errorf msg => msg
  | ErrOther msg => msg
  end.

(** Go's [(value, error)] results. *)
Inductive result (A : Type) : Type :=
| Ok (a : A)
| Fail (e : error).
Arguments Ok {A} a.
Arguments Fail {A} e.

(** ** Identifiers and certificates *)

(** [ids.ID] is [[32]byte]; [ids.ShortID] is [[20]byte]. *)
Abbreviation ID := (list byte).
Abbreviation ShortID := (list byte).

Definition IDLen : Z := 32.
Definition zeroID : ID := repeat x00 32.

(** [x509.Certificate]: the DER encoding [Raw] and what parsing extracts
    from it (of which the code reads [SignatureAlgorithm]; the remaining
    parsed fields are gathered in [Parsed]). *)
Record Certificate := mkCertificate {
  Raw : list byte;
  SignatureAlgorithm : Z;
  Parsed : list byte
}.

(** [x509.Certificate{}]. *)
Definition emptyCertificate : Certificate :=
  {| Raw := []; SignatureAlgorithm := 0; Parsed := [] |}.

(** The library functions the package calls. *)
Class Extern := {
  (** [hashing.ComputeHash256Array] *)
  ComputeHash256Array : list byte -> ID;
  (** [x509.ParseCertificate] *)
  ParseCertificate : list byte -> result Certificate;
  (** [cert.CheckSignature(algo, signed, signature)] *)
  CheckSignature : Certificate -> Z -> list byte -> list byte -> option error;
  (** [ids.ToShortID(hashing.PubkeyBytesToAddress(raw))] *)
  ToShortID_PubkeyBytesToAddress : list byte -> result ShortID
}.

(** ** The packer *)

Module wrappers.

Definition ShortLen : Z := 2.
Definition IntLen : Z := 4.
Definition LongLen : Z := 8.

Definition errBadLength : error := ErrOther "packer has insufficient length for input".
Definition errNegativeOffset : error := ErrOther "negative offset".
Definition errInvalidInput : error := ErrOther "input does not match expected format".

(** Modelled from the spec: [wrappers.Packer] (package [utils/wrappers]),
    the record and the operations of this module, which the envelope codec
    drives.  The spec fixes the layout: integers big-endian on 2, 4 and 8
    bytes, byte strings behind a 4-byte length, a certificate as its
    length-prefixed DER with length 0 for the empty certificate (decoded as
    absent), a maximum size on writes, and failure on over-run or
    truncation.  The packer keeps the first error it meets and every
    operation after an error does nothing. *)
Record Packer := mkPacker {
  Err : option error;
  MaxSize : Z;
  Bytes : list byte;
  Offset : Z
}.

Definition Errored (p : Packer) : bool :=
  match Err p with Some _ => true | None => false end.

Definition Add (e : error) (p : Packer) : Packer :=
  match Err p with
  | Some _ => p
  | None => mkPacker (Some e) (MaxSize p) (Bytes p) (Offset p)
  end.

Definition setBytes (bs : list byte) (p : Packer) : Packer :=
  mkPacker (Err p) (MaxSize p) bs (Offset p).

Definition setOffset (o : Z) (p : Packer) : Packer :=
  mkPacker (Err p) (MaxSize p) (Bytes p) o.

(** There are at least [n] bytes left to read. *)
Definition CheckSpace (n : Z) (p : Packer) : Packer :=
  if Offset p <? 0 then Add errNegativeOffset p
  else if n <? 0 then Add errInvalidInput p
  else if len (Bytes p) - Offset p <? n then Add errBadLength p
  else p.

(** There are [n] bytes of room at the offset, growing the byte string
    (with zero bytes) up to [MaxSize]. *)
Definition Expand (n : Z) (p : Packer) : Packer :=
  let neededSize := n + Offset p in
  if neededSize <=? len (Bytes p) then p
  else if neededSize >? MaxSize p then Add errBadLength p
  else setBytes (Bytes p ++ repeat x00 (Z.to_nat (neededSize - len (Bytes p)))) p.

(** Write [bs] at the offset and move past it. *)
Definition writeAtOffset (bs : list byte) (p : Packer) : Packer :=
  let off := Z.to_nat (Offset p) in
  setOffset (Offset p + len bs)
    (setBytes (take off (Bytes p) ++ copy_into (drop off (Bytes p)) bs) p).

Definition PackFixedBytes (bs : list byte) (p : Packer) : Packer :=
  let p := Expand (len bs) p in
  if Errored p then p else writeAtOffset bs p.

Definition PackShort (val : Z) (p : Packer) : Packer :=
  let p := Expand ShortLen p in
  if Errored p then p else writeAtOffset (be_encode 2 val) p.

Definition PackInt (val : Z) (p : Packer) : Packer :=
  let p := Expand IntLen p in
  if Errored p then p else writeAtOffset (be_encode 4 val) p.

Definition PackLong (val : Z) (p : Packer) : Packer :=
  let p := Expand LongLen p in
  if Errored p then p else writeAtOffset (be_encode 8 val) p.

Definition PackBytes (bs : list byte) (p : Packer) : Packer :=
  PackFixedBytes bs (PackInt (uint32 (len bs)) p).

Definition PackX509Certificate (cert : Certificate) (p : Packer) : Packer :=
  PackBytes (Raw cert) p.

Definition UnpackFixedBytes (size : Z) (p : Packer) : list byte * Packer :=
  let p := CheckSpace size p in
  if Errored p then ([], p)
  else (slice (Bytes p) (Offset p) (Offset p + size), setOffset (Offset p + size) p).

Definition UnpackShort (p : Packer) : Z * Packer :=
  let p := CheckSpace ShortLen p in
  if Errored p then (0, p)
  else (be_decode (slice (Bytes p) (Offset p) (Offset p + ShortLen)),
        setOffset (Offset p + ShortLen) p).

Definition UnpackInt (p : Packer) : Z * Packer :=
  let p := CheckSpace IntLen p in
  if Errored p then (0, p)
  else (be_decode (slice (Bytes p) (Offset p) (Offset p + IntLen)),
        setOffset (Offset p + IntLen) p).

Definition UnpackLong (p : Packer) : Z * Packer :=
  let p := CheckSpace LongLen p in
  if Errored p then (0, p)
  else (be_decode (slice (Bytes p) (Offset p) (Offset p + LongLen)),
        setOffset (Offset p + LongLen) p).

Definition UnpackBytes (p : Packer) : list byte * Packer :=
  let '(size, p) := UnpackInt p in
  UnpackFixedBytes size p.

(** [None] is the nil certificate: an empty byte string, or an error. *)
Definition UnpackX509Certificate `{Extern} (p : Packer) : option Certificate * Packer :=
  let '(b, p) := UnpackBytes p in
  if Errored p then (None, p)
  else if len b =? 0 then (None, p)
  else match ParseCertificate b with
       | Fail err => (None, Add err p)
       | Ok cert => (Some cert, p)
       end.

End wrappers.

Import wrappers.

(** ** The header and the envelope codec *)

Definition proBlkVersion : Z := 0.

(** [time.Duration] is an int64 count of nanoseconds. *)
Definition Second : Z := 1000000000.
Definition BlkSubmissionTolerance : Z := 10 * Second.
Definition BlkSubmissionWinLength : Z := 2 * Second.

(** Go's [time.Time], by its wall-clock reading: [t.sec()], an int64 count
    of seconds since 1 January of year 1, and [t.nsec()], a count of
    nanoseconds in [0, 10^9).  A reading is kept as one integer, the
    nanoseconds since the Unix epoch,
    [(t.sec() - unixToInternal) * 10^9 + t.nsec()], from which both parts
    are read back.  The monotonic reading that [time.Now] adds is left
    out: [Before] and [After] use it only when both times carry one, and
    here one side always comes from [time.Unix], which carries none. *)
Definition unixToInternal : Z := 62135596800.

Definition time_sec (t : Z) : Z := t / Second + unixToInternal.
Definition time_nsec (t : Z) : Z := t mod Second.

(** [unixTime(sec, nsec)] is [Time{uint64(nsec), sec + unixToInternal, Local}]:
    the sum is an int64 and wraps. *)
Definition unixTime (sec nsec : Z) : Z :=
  (int64 (sec + unixToInternal) - unixToInternal) * Second + nsec.

Definition time_Unix (sec nsec : Z) : Z :=
  if (nsec <? 0) || (nsec >=? Second) then
    let n := Z.quot nsec Second in
    let sec := int64 (sec + n) in
    let nsec := nsec - n * Second in
    if nsec <? 0 then unixTime (int64 (sec - 1)) (nsec + Second)
    else unixTime sec nsec
  else unixTime sec nsec.

(** [t.addSec(d)]: the sum of the seconds, kept at the largest or smallest
    value when it overflows. *)
Definition addSec (ext d : Z) : Z :=
  let sum := int64 (ext + d) in
  if Bool.eqb (sum >? ext) (d >? 0) then sum
  else if d >? 0 then 2 ^ 63 - 1
  else - (2 ^ 63 - 1).

Definition time_Add (t d : Z) : Z :=
  let dsec := Z.quot d Second in
  let nsec := time_nsec t + Z.rem d Second in
  let '(dsec, nsec) :=
    if nsec >=? Second then (dsec + 1, nsec - Second)
    else if nsec <? 0 then (dsec - 1, nsec + Second)
    else (dsec, nsec) in
  (addSec (time_sec t) dsec - unixToInternal) * Second + nsec.

Definition time_Before (t u : Z) : bool :=
  let ts := time_sec t in
  let us := time_sec u in
  (ts <? us) || ((ts =? us) && (time_nsec t <? time_nsec u)).

Definition time_After (t u : Z) : bool :=
  let ts := time_sec t in
  let us := time_sec u in
  (ts >? us) || ((ts =? us) && (time_nsec t >? time_nsec u)).

Record ProposerBlockHeader := mkHeader {
  version : Z;          (* uint16 *)
  prntID : ID;
  timestamp : Z;        (* int64 *)
  pChainHeight : Z;     (* uint64 *)
  valCert : Certificate;
  signature : list byte
}.

Definition NewProHeader (prntID : ID) (unixTime height : Z) (cert : Certificate)
  : ProposerBlockHeader :=
  {| version := proBlkVersion; prntID := prntID; timestamp := unixTime;
     pChainHeight := height; valCert := cert; signature := [] |}.

Definition setSignature (sig : list byte) (h : ProposerBlockHeader) : ProposerBlockHeader :=
  {| version := version h; prntID := prntID h; timestamp := timestamp h;
     pChainHeight := pChainHeight h; valCert := valCert h; signature := sig |}.

(** The header is embedded in the Go struct; here it is the field
    [mHeader]. *)
Record marshallingProposerBLock := mkMarshalling {
  mHeader : ProposerBlockHeader;
  wrpdBytes : list byte
}.

(** [var mPb marshallingProposerBLock]. *)
Definition zeroMarshalling : marshallingProposerBLock :=
  {| mHeader := {| version := 0; prntID := zeroID; timestamp := 0; pChainHeight := 0;
                   valCert := emptyCertificate; signature := [] |};
     wrpdBytes := [] |}.

Definition marshal (mPb : marshallingProposerBLock) : result (list byte) :=
  let p := mkPacker None (Z.shiftl 1 18) [] 0 in
  let p := PackShort (version (mHeader mPb)) p in
  if Errored p then Fail ErrProBlkFailedParsing else
  let p := PackBytes (prntID (mHeader mPb)) p in
  if Errored p then Fail ErrProBlkFailedParsing else
  let p := PackLong (uint64 (timestamp (mHeader mPb))) p in
  if Errored p then Fail ErrProBlkFailedParsing else
  let p := PackLong (pChainHeight (mHeader mPb)) p in
  if Errored p then Fail ErrProBlkFailedParsing else
  let p := PackX509Certificate (valCert (mHeader mPb)) p in
  if Errored p then Fail ErrProBlkFailedParsing else
  let p := PackBytes (signature (mHeader mPb)) p in
  if Errored p then Fail ErrProBlkFailedParsing else
  let p := PackBytes (wrpdBytes mPb) p in
  if Errored p then Fail ErrProBlkFailedParsing else
  Ok (Bytes p).

(** [unmarshal] fills the receiver field by field; the result is the
    receiver as the call leaves it and the error returned. *)
Definition unmarshal `{Extern} (mPb : marshallingProposerBLock) (b : list byte)
  : marshallingProposerBLock * option error :=
  let h := mHeader mPb in
  let p := mkPacker None 0 b 0 in
  let '(v, p) := UnpackShort p in
  let h := {| version := v; prntID := prntID h; timestamp := timestamp h;
              pChainHeight := pChainHeight h; valCert := valCert h;
              signature := signature h |} in
  if Errored p then (mkMarshalling h (wrpdBytes mPb), Some ErrProBlkFailedParsing) else
  let '(prntIDBytes, p) := UnpackBytes p in
  if Errored p then (mkMarshalling h (wrpdBytes mPb), Some ErrProBlkFailedParsing) else
  if negb (len prntIDBytes =? IDLen) (* len(mPb.prntID), an array *)
  then (mkMarshalling h (wrpdBytes mPb), Some ErrProBlkFailedParsing) else
  let h := {| version := version h; prntID := copy_into (prntID h) prntIDBytes;
              timestamp := timestamp h; pChainHeight := pChainHeight h;
              valCert := valCert h; signature := signature h |} in
  let '(ts, p) := UnpackLong p in
  let h := {| version := version h; prntID := prntID h; timestamp := int64 ts;
              pChainHeight := pChainHeight h; valCert := valCert h;
              signature := signature h |} in
  if Errored p then (mkMarshalling h (wrpdBytes mPb), Some ErrProBlkFailedParsing) else
  let '(height, p) := UnpackLong p in
  let h := {| version := version h; prntID := prntID h; timestamp := timestamp h;
              pChainHeight := height; valCert := valCert h;
              signature := signature h |} in
  if Errored p then (mkMarshalling h (wrpdBytes mPb), Some ErrProBlkFailedParsing) else
  let '(pValCert, p) := UnpackX509Certificate p in
  if Errored p then (mkMarshalling h (wrpdBytes mPb), Some ErrProBlkFailedParsing) else
  let cert := match pValCert with
              | Some c => c
              | None => emptyCertificate (* special case: genesis has empty certificate *)
              end in
  let h := {| version := version h; prntID := prntID h; timestamp := timestamp h;
              pChainHeight := pChainHeight h; valCert := cert;
              signature := signature h |} in
  let '(sig, p) := UnpackBytes p in
  let h := setSignature sig h in
  if Errored p then (mkMarshalling h (wrpdBytes mPb), Some ErrProBlkFailedParsing) else
  let '(wb, p) := UnpackBytes p in
  if Errored p then (mkMarshalling h wb, Some ErrProBlkFailedParsing) else
  (mkMarshalling h wb, None).

(** ** The inner block, the VM and the decorated block *)

(** [snowman.Block], by what its methods return for the block at hand. *)
Record Block := mkBlock {
  blk_ID : ID;
  blk_Bytes : list byte;
  blk_Verify : option error;
  blk_Accept : option error;
  blk_Reject : option error
}.

(** What the block reads from its [*VM]: [vm.pChainHeight()], [vm.now()],
    [vm.BlkSubmissionDelay], the signer of [vm.stakingCert.PrivateKey]
    ([None] when the key is no [crypto.Signer]) applied to a digest, and
    [vm.ChainVM.ParseBlock]. *)
Record VM := mkVM {
  vm_pChainHeight : Z;
  vm_now : Z;
  vm_BlkSubmissionDelay : Z -> ShortID -> Z;
  vm_stakingSigner : option (list byte -> result (list byte));
  vm_ParseBlock : list byte -> result Block
}.

Record ProposerBlock := mkProposerBlock {
  header : ProposerBlockHeader;
  coreBlk : Block;
  id : ID;
  bytes : option (list byte)
}.

(** The contents of a possibly nil slice. *)
Definition contents (s : option (list byte)) : list byte :=
  match s with Some bs => bs | None => [] end.

Definition setHeaderSignature (sig : list byte) (pb : ProposerBlock) : ProposerBlock :=
  {| header := setSignature sig (header pb); coreBlk := coreBlk pb; id := id pb;
     bytes := bytes pb |}.

Definition setBlockBytes (bs : option (list byte)) (pb : ProposerBlock) : ProposerBlock :=
  {| header := header pb; coreBlk := coreBlk pb; id := id pb; bytes := bs |}.

Definition setID (i : ID) (pb : ProposerBlock) : ProposerBlock :=
  {| header := header pb; coreBlk := coreBlk pb; id := i; bytes := bytes pb |}.

Definition ID_of (pb : ProposerBlock) : ID := id pb.

Definition getBytes (pb : ProposerBlock) : list byte :=
  let mPb := {| mHeader := header pb; wrpdBytes := blk_Bytes (coreBlk pb) |} in
  match marshal mPb with
  | Ok res => res
  | Fail _ => []
  end.

(** [Bytes] fills [pb.bytes] when it is nil. *)
Definition Bytes (pb : ProposerBlock) : list byte * ProposerBlock :=
  match bytes pb with
  | None => let pb := setBlockBytes (Some (getBytes pb)) pb in (contents (bytes pb), pb)
  | Some bs => (bs, pb)
  end.

Definition sign `{Extern} (vm : VM) (pb : ProposerBlock) : ProposerBlock * option error :=
  let pb := setHeaderSignature [] pb in
  let msgHash := ComputeHash256Array (getBytes pb) in
  match vm_stakingSigner vm with
  | None => (pb, Some ErrInvalidTLSKey)
  | Some signKey =>
    match signKey msgHash with
    | Fail err => (pb, Some err)
    | Ok sig => (setHeaderSignature sig pb, None)
    end
  end.

Definition NewProBlock `{Extern} (vm : VM) (hdr : ProposerBlockHeader) (sb : Block)
    (bytes_ : option (list byte)) (signBlk : bool) : result ProposerBlock :=
  let res := {| header := hdr; coreBlk := sb; id := zeroID; bytes := bytes_ |} in
  let '(res, err) := if signBlk then sign vm res else (res, None) in
  match err with
  | Some err => Fail err
  | None =>
    let res := match bytes_ with
               | None => let '(bs, res) := Bytes res in setBlockBytes (Some bs) res
               | Some _ => res
               end in
    Ok (setID (ComputeHash256Array (contents (bytes res))) res)
  end.

(** ** The state store *)

(** Modelled from the spec: the key/value store behind [prefixdb.Database]
    (packages [database], [prefixdb]), "an opaque byte store supporting
    Put/Get": a finite map, with the error its next [Put] returns ([None]
    when it succeeds).  [init] opens both prefixed stores on the backing
    store itself, so a [Put] that succeeds is in the store when it
    returns. *)
Record KVStore := mkKVStore {
  kv_data : gmap (list byte) (list byte);
  kv_putErr : option error
}.

Definition Put (k v : list byte) (s : KVStore) : KVStore * option error :=
  match kv_putErr s with
  | Some err => (s, Some err)
  | None => (mkKVStore (<[k := v]> (kv_data s)) (kv_putErr s), None)
  end.

Definition Get (k : list byte) (s : KVStore) : result (list byte) :=
  match kv_data s !! k with
  | Some v => Ok v
  | None => Fail (ErrOther "not found")
  end.

(** Modelled from the spec: the version layer [versiondb.Database], by the
    errors its [CommitBatch] and the [Write] of the batch return.  No write
    of this file goes through it, so it has nothing staged: committing
    writes no record and [Abort] drops none. *)
Record VersionDB := mkVersionDB {
  vdb_commitBatchErr : option error;
  vdb_writeErr : option error
}.

(** The state.  [knownProBlocks] holds, for each id, the block that the
    cached pointer leads to, as it was when it was cached.  Once a block is
    built, the file writes through its pointer only in [sign] (the
    signature), in [Bytes] (a nil [bytes] is filled) and in [Verify] (a nil
    [bytes] comes back empty); where a property compares the cache across
    such a call, it is stated for a receiver that the call does not
    change. *)
Record innerState := mkInnerState {
  baseDB : VersionDB;
  knownProBlocks : gmap ID ProposerBlock;
  proBlkDB : KVStore;
  wrpdToProID : gmap ID ID;
  wrpdToProIDDB : KVStore
}.

Definition newState : innerState :=
  {| baseDB := mkVersionDB None None;
     knownProBlocks := ∅; proBlkDB := mkKVStore ∅ None;
     wrpdToProID := ∅; wrpdToProIDDB := mkKVStore ∅ None |}.

Definition setCaches (k : gmap ID ProposerBlock) (w : gmap ID ID) (st : innerState)
  : innerState :=
  {| baseDB := baseDB st; knownProBlocks := k; proBlkDB := proBlkDB st;
     wrpdToProID := w; wrpdToProIDDB := wrpdToProIDDB st |}.

Definition setProBlkDB (s : KVStore) (st : innerState) : innerState :=
  {| baseDB := baseDB st; knownProBlocks := knownProBlocks st; proBlkDB := s;
     wrpdToProID := wrpdToProID st; wrpdToProIDDB := wrpdToProIDDB st |}.

Definition setWrpdToProIDDB (s : KVStore) (st : innerState) : innerState :=
  {| baseDB := baseDB st; knownProBlocks := knownProBlocks st; proBlkDB := proBlkDB st;
     wrpdToProID := wrpdToProID st; wrpdToProIDDB := s |}.

(** [is.baseDB.Abort()]: nothing is staged in the version layer. *)
Definition Abort (st : innerState) : innerState := st.

Definition cacheProBlk (blk : ProposerBlock) (st : innerState) : innerState :=
  setCaches (<[ID_of blk := blk]> (knownProBlocks st))
            (<[blk_ID (coreBlk blk) := ID_of blk]> (wrpdToProID st)) st.

Definition wipeFromCacheProBlk (id : ID) (st : innerState) : innerState :=
  match knownProBlocks st !! id with
  | Some blk =>
    setCaches (delete id (knownProBlocks st))
              (delete (blk_ID (coreBlk blk)) (wrpdToProID st)) st
  | None => st
  end.

Definition commitBlk (blk : ProposerBlock) (st : innerState) : innerState * option error :=
  (* defer is.baseDB.Abort() *)
  let '(db, err) := Put (id blk) (contents (bytes blk)) (proBlkDB st) in
  let st := setProBlkDB db st in
  match err with
  | Some err => (Abort (wipeFromCacheProBlk (ID_of blk) st), Some err)
  | None =>
    let wrpdID := blk_ID (coreBlk blk) in
    let value := default zeroID (wrpdToProID st !! wrpdID) in
    let '(db, err) := Put wrpdID value (wrpdToProIDDB st) in
    let st := setWrpdToProIDDB db st in
    match err with
    | Some err => (Abort (wipeFromCacheProBlk (ID_of blk) st), Some err)
    | None =>
      match vdb_commitBatchErr (baseDB st) with
      | Some err => (Abort (wipeFromCacheProBlk (ID_of blk) st), Some err)
      | None => (Abort st, vdb_writeErr (baseDB st))
      end
    end
  end.

Definition getProBlock `{Extern} (vm : VM) (id : ID) (st : innerState)
  : innerState * result ProposerBlock :=
  match knownProBlocks st !! id with
  | Some proBlk => (st, Ok proBlk)
  | None =>
    match Get id (proBlkDB st) with
    | Fail _ => (st, Fail ErrProBlkNotFound)
    | Ok proBytes =>
      let '(mPb, err) := unmarshal zeroMarshalling proBytes in
      match err with
      | Some err =>
        (st, Fail (Errorf ("couldn't unmarshal proposerBlockHeader: " +:+ error_message err)))
      | None =>
        match vm_ParseBlock vm (wrpdBytes mPb) with
        | Fail err => (st, Fail err)
        | Ok sb =>
          (* not signing block, cannot err *)
          match NewProBlock vm (mHeader mPb) sb (Some proBytes) false with
          | Ok proBlk => (cacheProBlk proBlk st, Ok proBlk)
          | Fail err => (st, Fail err)
          end
        end
      end
    end
  end.

Definition getBlockFromWrappedBlkID `{Extern} (vm : VM) (wrappedID : ID) (st : innerState)
  : innerState * result (option ProposerBlock) :=
  match wrpdToProID st !! wrappedID with
  | Some proID => (st, Ok (knownProBlocks st !! proID))
  | None =>
    match Get wrappedID (wrpdToProIDDB st) with
    | Fail _ => (st, Fail ErrProBlkNotFound)
    | Ok proIDBytes =>
      let proID := copy_into zeroID proIDBytes in
      match getProBlock vm proID st with
      | (st, Ok blk) => (st, Ok (Some blk))
      | (st, Fail err) => (st, Fail err)
      end
    end
  end.

Definition wipeCache (st : innerState) : innerState := setCaches ∅ ∅ st.

(** ** Accept, Reject and Verify *)

Definition Accept (pb : ProposerBlock) (st : innerState) : innerState * option error :=
  let err := blk_Accept (coreBlk pb) in
  match err with
  | None =>
    (* pb parent block should not be needed anymore. *)
    (wipeFromCacheProBlk (prntID (header pb)) st, err)
  | Some _ => (st, err)
  end.

Definition Reject (pb : ProposerBlock) (st : innerState) : innerState * option error :=
  let err := blk_Reject (coreBlk pb) in
  match err with
  | None => (wipeFromCacheProBlk (id pb) st, err)
  | Some _ => (st, err)
  end.

(** [Verify] returns the state (the parent may have been loaded into the
    caches), the receiver as the call leaves it, and the error. *)
Definition Verify `{Extern} (vm : VM) (pb : ProposerBlock) (st : innerState)
  : innerState * ProposerBlock * option error :=
  (* validate version *)
  if negb (version (header pb) =? proBlkVersion)
  then (st, pb, Some (Errorf "codecVersion not matching")) else
  (* validate core block *)
  match blk_Verify (coreBlk pb) with
  | Some err => (st, pb, Some err)
  | None =>
  (* validate parent *)
  match getProBlock vm (prntID (header pb)) st with
  | (st, Fail _) => (st, pb, Some ErrProBlkNotFound)
  | (st, Ok prntBlk) =>
  (* validate height *)
  if pChainHeight (header pb) <? pChainHeight (header prntBlk)
  then (st, pb, Some ErrProBlkWrongHeight) else
  if pChainHeight (header pb) >? vm_pChainHeight vm
  then (st, pb, Some ErrProBlkWrongHeight) else
  (* validate timestamp *)
  if timestamp (header pb) <? timestamp (header prntBlk)
  then (st, pb, Some ErrProBlkBadTimestamp) else
  match ToShortID_PubkeyBytesToAddress (Raw (valCert (header pb))) with
  | Fail _ => (st, pb, Some ErrInvalidNodeID)
  | Ok nodeID =>
  let blkWinDelay := vm_BlkSubmissionDelay vm (pChainHeight (header pb)) nodeID in
  let blkWinStart := time_Add (time_Unix (timestamp (header prntBlk)) 0) blkWinDelay in
  if time_Before (time_Unix (timestamp (header pb)) 0) blkWinStart
  then (st, pb, Some ErrProBlkBadTimestamp) else
  if time_After (time_Unix (timestamp (header pb)) 0)
                (time_Add (vm_now vm) BlkSubmissionTolerance)
  then (st, pb, Some ErrProBlkBadTimestamp) else
  (* validate signature. *)
  let blkSignature := copy_into (repeat x00 (length (signature (header pb))))
                                (signature (header pb)) in
  let pb := setHeaderSignature [] pb in
  let blkBytes := copy_into (repeat x00 (length (contents (bytes pb))))
                            (contents (bytes pb)) in
  let pb := setBlockBytes (Some []) pb in
  let signedBytes := getBytes pb in
  let pb := setHeaderSignature blkSignature pb in
  let pb := setBlockBytes (Some blkBytes) pb in
  match CheckSignature (valCert (header pb)) (SignatureAlgorithm (valCert (header pb)))
                       signedBytes (signature (header pb)) with
  | Some _ => (st, pb, Some ErrInvalidSignature)
  | None => (st, pb, None)
  end
  end
  end
  end.

(** ** Parent *)

(** [pb.Parent()]: the decorated parent when [getProBlock] finds it, and
    [&missing.Block{BlkID: pb.header.prntID}] otherwise. *)
Inductive parentResult : Type :=
| ParentBlock (blk : ProposerBlock)
| MissingBlock (BlkID : ID).

Definition Parent `{Extern} (vm : VM) (pb : ProposerBlock) (st : innerState)
  : innerState * parentResult :=
  match getProBlock vm (prntID (header pb)) st with
  | (st, Ok res) => (st, ParentBlock res)
  | (st, Fail _) => (st, MissingBlock (prntID (header pb)))
  end.

(** ** Definitions used to state the properties *)

(** The envelope as the specification lays it out: version on 2 bytes,
    the parent id behind its 4-byte length, timestamp and reference height
    on 8 bytes each, then certificate, signature and inner bytes, each
    behind a 4-byte length; all integers big-endian. *)
Definition envelope (mPb : marshallingProposerBLock) : list byte :=
  let h := mHeader mPb in
  be_encode 2 (version h)
  ++ (be_encode 4 (uint32 (len (prntID h))) ++ prntID h)
  ++ be_encode 8 (uint64 (timestamp h))
  ++ be_encode 8 (pChainHeight h)
  ++ (be_encode 4 (uint32 (len (Raw (valCert h)))) ++ Raw (valCert h))
  ++ (be_encode 4 (uint32 (len (signature h))) ++ signature h)
  ++ (be_encode 4 (uint32 (len (wrpdBytes mPb))) ++ wrpdBytes mPb).

Definition MaxEnvelopeSize : Z := 262144.

(** A certificate as the program can hold one: the empty certificate of a
    genesis block, or one whose fields are what parsing its DER yields. *)
Definition wellFormedCert `{Extern} (c : Certificate) : Prop :=
  c = emptyCertificate \/ (Raw c <> [] /\ ParseCertificate (Raw c) = Ok c).

(** A header and inner bytes as the Go types and the codec admit them:
    every field in the range of its type, a 32-byte parent id, a
    well-formed certificate, and an envelope within the maximum size. *)
Definition wellFormed `{Extern} (mPb : marshallingProposerBLock) : Prop :=
  let h := mHeader mPb in
  0 <= version h < 2 ^ 16
  /\ len (prntID h) = IDLen
  /\ - 2 ^ 63 <= timestamp h < 2 ^ 63
  /\ 0 <= pChainHeight h < 2 ^ 64
  /\ wellFormedCert (valCert h)
  /\ len (envelope mPb) <= MaxEnvelopeSize.

(** A packer that is appending: no error, the offset at the end. *)
Definition appending (p : Packer) : Prop :=
  Err p = None /\ Offset p = len (wrappers.Bytes p) /\ len (wrappers.Bytes p) <= MaxSize p.

(** [p] after [data] was appended to it. *)
Definition appended (data : list byte) (p : Packer) : Packer :=
  mkPacker None (MaxSize p) (wrappers.Bytes p ++ data) (len (wrappers.Bytes p ++ data)).

(** A packer that is reading, with [rest] left after the offset. *)
Definition reading (p : Packer) (rest : list byte) : Prop :=
  Err p = None /\ 0 <= Offset p <= len (wrappers.Bytes p)
  /\ drop (Z.to_nat (Offset p)) (wrappers.Bytes p) = rest.

(** The envelope of a block, as [getBytes] hands it to the codec. *)
Definition toMarshalling (pb : ProposerBlock) : marshallingProposerBLock :=
  {| mHeader := header pb; wrpdBytes := blk_Bytes (coreBlk pb) |}.

(** The error [Verify] returns. *)
Definition verifyError `{Extern} (vm : VM) (pb : ProposerBlock) (st : innerState)
  : option error := snd (Verify vm pb st).

(** Checks 1 to 3 of [Verify] pass: the version is the current one, the
    inner block verifies, and the parent is found as [prntBlk], leaving the
    state [st']. *)
Definition passesChecks1to3 `{Extern} (vm : VM) (pb : ProposerBlock)
    (st st' : innerState) (prntBlk : ProposerBlock) : Prop :=
  version (header pb) = proBlkVersion
  /\ blk_Verify (coreBlk pb) = None
  /\ getProBlock vm (prntID (header pb)) st = (st', Ok prntBlk).

(** Checks 4 and 5: the reference height is within its bounds. *)
Definition passesHeightChecks (vm : VM) (pb prntBlk : ProposerBlock) : Prop :=
  pChainHeight (header prntBlk) <= pChainHeight (header pb) <= vm_pChainHeight vm.

(** Checks 6 to 9: the node id is derived as [nodeID] and the timestamp is
    within its window, the bounds of the window being the [time.Time]
    values that [Verify] computes. *)
Definition passesTimestampChecks `{Extern} (vm : VM) (pb prntBlk : ProposerBlock)
    (nodeID : ShortID) : Prop :=
  timestamp (header prntBlk) <= timestamp (header pb)
  /\ ToShortID_PubkeyBytesToAddress (Raw (valCert (header pb))) = Ok nodeID
  /\ time_Add (time_Unix (timestamp (header prntBlk)) 0)
              (vm_BlkSubmissionDelay vm (pChainHeight (header pb)) nodeID)
     <= time_Unix (timestamp (header pb)) 0
  /\ time_Unix (timestamp (header pb)) 0
     <= time_Add (vm_now vm) BlkSubmissionTolerance.

(** An instant, in nanoseconds since the Unix epoch, that a [time.Time]
    holds: its seconds since year 1 fit an int64. *)
Definition representable (t : Z) : Prop := - 2 ^ 63 <= time_sec t < 2 ^ 63.

(** The envelope of a block with the signature field set to empty, as
    [marshal] produces it, or the empty byte string when [marshal] fails. *)
Definition signedEnvelope (pb : ProposerBlock) : list byte :=
  match marshal {| mHeader := setSignature [] (header pb);
                   wrpdBytes := blk_Bytes (coreBlk pb) |} with
  | Ok b => b
  | Fail _ => []
  end.

(** Every entry of the inverse cache names a block of the primary cache
    that wraps the entry's inner id. *)
Definition inverseSound (st : innerState) : Prop :=
  forall k i, wrpdToProID st !! k = Some i ->
    exists blk, knownProBlocks st !! i = Some blk /\ blk_ID (coreBlk blk) = k.

(** The primary cache holds every block under its own id, and the primary
    store holds every record under the hash of its bytes. *)
Definition keyed `{Extern} (st : innerState) : Prop :=
  (forall i blk, knownProBlocks st !! i = Some blk -> id blk = i)
  /\ (forall i bs, kv_data (proBlkDB st) !! i = Some bs -> ComputeHash256Array bs = i).

(** The state a successful [commitBlk] leaves. *)
Definition committed (blk : ProposerBlock) (st : innerState) : innerState :=
  {| baseDB := baseDB st;
     knownProBlocks := knownProBlocks st;
     proBlkDB := mkKVStore (<[id blk := contents (bytes blk)]> (kv_data (proBlkDB st))) None;
     wrpdToProID := wrpdToProID st;
     wrpdToProIDDB :=
       mkKVStore (<[blk_ID (coreBlk blk)
                    := default zeroID (wrpdToProID st !! blk_ID (coreBlk blk))]>
                    (kv_data (wrpdToProIDDB st))) None |}.

(** ** Values for the closed examples *)

(** Collaborators: a hash that pads or cuts to 32 bytes, a certificate
    parser that reads the algorithm from the first byte, a signature check
    that accepts the hash of the signed bytes as signature, and an address
    that pads or cuts to 20 bytes. *)
Definition exampleExtern : Extern :=
  {| ComputeHash256Array := fun b => take 32 (b ++ repeat x00 32);
     ParseCertificate := fun b =>
       match b with
       | [] => Fail (ErrOther "x509: malformed certificate")
       | a :: _ => Ok {| Raw := b; SignatureAlgorithm := Z_of_byte a; Parsed := b |}
       end;
     CheckSignature := fun _ _ signed sig =>
       if decide (take 32 (signed ++ repeat x00 32) = sig) then None
       else Some (ErrOther "x509: signature mismatch");
     ToShortID_PubkeyBytesToAddress := fun raw => Ok (take 20 (raw ++ repeat x00 20)) |}.

(** A VM at reference height 10 whose clock reads 1010 s, with a
    submission delay of 5 s and a signer that returns the digest. *)
Definition exampleVM : VM :=
  {| vm_pChainHeight := 10;
     vm_now := time_Unix 1010 0;
     vm_BlkSubmissionDelay := fun _ _ => 5 * Second;
     vm_stakingSigner := Some (fun digest => Ok digest);
     vm_ParseBlock := fun b =>
       Ok {| blk_ID := take 32 (b ++ repeat x00 32); blk_Bytes := b;
             blk_Verify := None; blk_Accept := None; blk_Reject := None |} |}.

Definition exampleCore (tag : byte) : Block :=
  {| blk_ID := repeat tag 32; blk_Bytes := [tag];
     blk_Verify := None; blk_Accept := None; blk_Reject := None |}.

(** A parent at timestamp 1000 s and reference height 7, and a child of it
    at timestamp 1005 s and the same height. *)
Definition parentBlock : ProposerBlock :=
  {| header := NewProHeader zeroID 1000 7 emptyCertificate;
     coreBlk := exampleCore x02; id := repeat x01 32; bytes := Some [xaa] |}.

Definition childBlock : ProposerBlock :=
  {| header := NewProHeader (repeat x01 32) 1005 7 emptyCertificate;
     coreBlk := exampleCore x04; id := repeat x03 32; bytes := Some [xbb] |}.

(** The child with another version, timestamp or reference height. *)
Definition withVersion (v : Z) (pb : ProposerBlock) : ProposerBlock :=
  {| header := {| version := v; prntID := prntID (header pb);
                  timestamp := timestamp (header pb);
                  pChainHeight := pChainHeight (header pb);
                  valCert := valCert (header pb);
                  signature := signature (header pb) |};
     coreBlk := coreBlk pb; id := id pb; bytes := bytes pb |}.

Definition withTimestamp (ts : Z) (pb : ProposerBlock) : ProposerBlock :=
  {| header := {| version := version (header pb); prntID := prntID (header pb);
                  timestamp := ts;
                  pChainHeight := pChainHeight (header pb);
                  valCert := valCert (header pb);
                  signature := signature (header pb) |};
     coreBlk := coreBlk pb; id := id pb; bytes := bytes pb |}.

Definition withHeight (h : Z) (pb : ProposerBlock) : ProposerBlock :=
  {| header := {| version := version (header pb); prntID := prntID (header pb);
                  timestamp := timestamp (header pb);
                  pChainHeight := h;
                  valCert := valCert (header pb);
                  signature := signature (header pb) |};
     coreBlk := coreBlk pb; id := id pb; bytes := bytes pb |}.

(** The state in which [parentBlock] is cached. *)
Definition exampleState : innerState := cacheProBlk parentBlock newState.

(** The state in which the parent is cached with the timestamp 2^63 - 11,
    ten seconds before the largest int64. *)
Definition lateState : innerState :=
  cacheProBlk (withTimestamp (2 ^ 63 - 11) parentBlock) newState.

(** The genesis envelope of the specification: version 0, a zero parent
    id, timestamp and reference height 0, and three empty fields. *)
Definition genesisBytes : list byte :=
  [x00; x00] ++ [x00; x00; x00; x20] ++ repeat x00 32
  ++ repeat x00 8 ++ repeat x00 8
  ++ [x00; x00; x00; x00] ++ [x00; x00; x00; x00] ++ [x00; x00; x00; x00].

(** A store whose version layer fails the write of the batch. *)
Definition writeFailingState : innerState :=
  {| baseDB := mkVersionDB None (Some (ErrOther "closed"));
     knownProBlocks := ∅; proBlkDB := mkKVStore ∅ None;
     wrpdToProID := ∅; wrpdToProIDDB := mkKVStore ∅ None |}.

(** A store whose primary [Put] fails, with [parentBlock] cached. *)
Definition putFailingState : innerState :=
  cacheProBlk parentBlock
    {| baseDB := mkVersionDB None None;
       knownProBlocks := ∅; proBlkDB := mkKVStore ∅ (Some (ErrOther "closed"));
       wrpdToProID := ∅; wrpdToProIDDB := mkKVStore ∅ None |}.

(** A block whose inner bytes alone fill the maximum envelope size. *)
Definition oversizedBlock : ProposerBlock :=
  {| header := NewProHeader zeroID 0 0 emptyCertificate;
     coreBlk := {| blk_ID := repeat x05 32;
                   blk_Bytes := repeat x00 (Z.to_nat MaxEnvelopeSize);
                   blk_Verify := None; blk_Accept := None; blk_Reject := None |};
     id := zeroID; bytes := None |}.

(** A second decorated block over the inner block of [parentBlock]. *)
Definition siblingBlock : ProposerBlock :=
  {| header := NewProHeader zeroID 1001 7 emptyCertificate;
     coreBlk := exampleCore x02; id := repeat x06 32; bytes := Some [xcc] |}.

(** The inner block [exampleVM] parses from the byte 7, and a decorated
    block over it whose bytes are its envelope and whose id is their
    hash. *)
Definition parsedCore : Block :=
  {| blk_ID := take 32 ([x07] ++ repeat x00 32); blk_Bytes := [x07];
     blk_Verify := None; blk_Accept := None; blk_Reject := None |}.

Definition storedBlock : ProposerBlock :=
  let bs := envelope {| mHeader := header childBlock; wrpdBytes := [x07] |} in
  {| header := header childBlock; coreBlk := parsedCore;
     id := @ComputeHash256Array exampleExtern bs; bytes := Some bs |}.

(** [exampleVM] with a staking key that is no signer. *)
Definition noSignerVM : VM :=
  {| vm_pChainHeight := vm_pChainHeight exampleVM; vm_now := vm_now exampleVM;
     vm_BlkSubmissionDelay := vm_BlkSubmissionDelay exampleVM;
     vm_stakingSigner := None; vm_ParseBlock := vm_ParseBlock exampleVM |}.

(** A store whose inverse [Put] fails. *)
Definition inversePutFailingState : innerState :=
  {| baseDB := mkVersionDB None None;
     knownProBlocks := ∅; proBlkDB := mkKVStore ∅ None;
     wrpdToProID := ∅; wrpdToProIDDB := mkKVStore ∅ (Some (ErrOther "closed")) |}.

(** * Properties *)

(** ** Lengths, bytes and big-endian integers *)

Lemma len_app {A} (l k : list A) : len (l ++ k) = len l + len k.
Proof. unfold len. rewrite length_app. lia. Qed.

Lemma len_nil {A} : len (@nil A) = 0.
Proof. reflexivity. Qed.

Lemma len_nonneg {A} (l : list A) : 0 <= len l.
Proof. unfold len. lia. Qed.

Lemma len_zero_nil {A} (l : list A) : len l = 0 -> l = [].
Proof. destruct l; [reflexivity | unfold len; simpl; lia]. Qed.

Lemma Z_of_byte_range b : 0 <= Z_of_byte b < 256.
Proof. unfold Z_of_byte. pose proof (Byte.to_N_bounded b). lia. Qed.

Lemma Z_of_byte_of_Z z : Z_of_byte (byte_of_Z z) = z mod 256.
Proof.
  unfold Z_of_byte, byte_of_Z.
  change 255 with (Z.ones 8). rewrite Z.land_ones by lia.
  change (2 ^ 8) with 256.
  pose proof (Z.mod_pos_bound z 256 ltac:(lia)) as Hb.
  destruct (Byte.of_N (Z.to_N (z mod 256))) as [b|] eqn:E.
  - apply Byte.to_of_N in E. rewrite E. lia.
  - apply Byte.of_N_None_iff in E. lia.
Qed.

Lemma length_be_encode n v : length (be_encode n v) = n.
Proof. induction n; simpl; congruence. Qed.

Lemma len_be_encode n v : len (be_encode n v) = Z.of_nat n.
Proof. unfold len. now rewrite length_be_encode. Qed.

(** Shifting in a byte with [|] is adding it: the low eight bits are free. *)
Lemma lor_shiftl_byte acc b :
  Z.lor (Z.shiftl acc 8) (Z_of_byte b) = acc * 256 + Z_of_byte b.
Proof.
  pose proof (Z_of_byte_range b) as Hb.
  rewrite Z.shiftl_mul_pow2 by lia. change (2 ^ 8) with 256.
  rewrite <- Z.lxor_lor, <- Z.add_nocarry_lxor; try reflexivity.
  all: apply Z.bits_inj'; intros n Hn; rewrite Z.land_spec, Z.bits_0.
  all: destruct (Z.lt_ge_cases n 8) as [Hlt|Hge].
  all: try (change 256 with (2 ^ 8); rewrite Z.mul_pow2_bits_low by lia; reflexivity).
  all: rewrite <- (Z.mod_small (Z_of_byte b) (2 ^ 8)) by (change (2 ^ 8) with 256; lia).
  all: rewrite Z.mod_pow2_bits_high by lia; apply andb_false_r.
Qed.

Lemma fold_be_encode n v acc :
  fold_left (fun acc b => Z.lor (Z.shiftl acc 8) (Z_of_byte b)) (be_encode n v) acc
  = acc * 2 ^ (8 * Z.of_nat n) + v mod 2 ^ (8 * Z.of_nat n).
Proof.
  revert acc. induction n as [|k IH]; intros acc.
  - simpl. rewrite Z.mod_1_r. lia.
  - cbn [be_encode fold_left]. rewrite IH, lor_shiftl_byte, Z_of_byte_of_Z.
    rewrite Z.shiftr_div_pow2 by lia.
    replace (8 * Z.of_nat (S k)) with (8 * Z.of_nat k + 8) by lia.
    rewrite Z.pow_add_r by lia. change (2 ^ 8) with 256.
    assert (0 < 2 ^ (8 * Z.of_nat k)) by (apply Z.pow_pos_nonneg; lia).
    rewrite (Z.rem_mul_r v (2 ^ (8 * Z.of_nat k)) 256) by lia.
    lia.
Qed.

(** Decoding what was encoded on [n] bytes gives the value modulo
    [2^(8n)]. *)
Lemma be_decode_encode n v : be_decode (be_encode n v) = v mod 2 ^ (8 * Z.of_nat n).
Proof. unfold be_decode. rewrite fold_be_encode. lia. Qed.

Lemma int64_uint64 z : - 2 ^ 63 <= z < 2 ^ 63 -> int64 (uint64 z) = z.
Proof.
  intros Hz. unfold int64, uint64. rewrite Z.mod_mod by lia.
  destruct (Z.lt_ge_cases z 0) as [Hneg|Hpos].
  - replace (z mod 2 ^ 64) with (z + 2 ^ 64).
    + destruct (Z.ltb_spec (z + 2 ^ 64) (2 ^ 63)); lia.
    + apply Z.mod_unique with (q := -1); lia.
  - rewrite Z.mod_small by lia. destruct (Z.ltb_spec z (2 ^ 63)); lia.
Qed.

Lemma copy_into_same_length (dst src : list byte) :
  length dst = length src -> copy_into dst src = src.
Proof.
  intros Hl. unfold copy_into. rewrite Hl, firstn_all, <- Hl, drop_all.
  apply app_nil_r.
Qed.

Create Rewrite HintDb len.
#[local] Hint Rewrite @len_app @len_nil len_be_encode : len.

(** ** The packer, appending *)

Lemma Expand_errored n p : Errored p = true -> Errored (Expand n p) = true.
Proof.
  intros H. unfold Expand.
  destruct (_ <=? _); [assumption|]. destruct (_ >? _).
  - unfold Add. destruct (Err p) eqn:E; [assumption|].
    unfold Errored in H. rewrite E in H. discriminate.
  - exact H.
Qed.

(** Expanding by [len data] and writing [data] at the end appends it. *)
Lemma Expand_write_append data p :
  appending p -> len (wrappers.Bytes p) + len data <= MaxSize p ->
  writeAtOffset data (Expand (len data) p)
  = mkPacker None (MaxSize p) (wrappers.Bytes p ++ data) (len (wrappers.Bytes p ++ data))
  /\ Errored (Expand (len data) p) = false.
Proof.
  intros (He & Ho & Hm) Hfit. destruct p as [e M bs o]; simpl in *. subst e o.
  assert (Z.to_nat (len bs) = length bs) as Hn by (unfold len; lia).
  unfold Expand, writeAtOffset, setOffset, setBytes, Errored; simpl.
  destruct (Z.leb_spec (len data + len bs) (len bs)) as [Hle|Hgt]; simpl.
  - assert (data = []) as -> by (apply len_zero_nil; pose proof (len_nonneg data); lia).
    split; [|reflexivity]. rewrite Hn, firstn_all, drop_all. f_equal.
    autorewrite with len. lia.
  - destruct (Z.gtb_spec (len data + len bs) M) as [Hbig|_]; [lia|]. simpl.
    split; [|reflexivity]. rewrite Hn, take_app_length, drop_app_length. f_equal.
    + f_equal. unfold copy_into. rewrite repeat_length.
      replace (Z.to_nat (len data + len bs - len bs)) with (length data)
        by (unfold len; lia).
      rewrite firstn_all, drop_ge by (rewrite repeat_length; lia). apply app_nil_r.
    + autorewrite with len. lia.
Qed.

Lemma Expand_too_large n p :
  appending p -> MaxSize p < len (wrappers.Bytes p) + n ->
  Errored (Expand n p) = true.
Proof.
  intros (He & Ho & Hm) Hbig. unfold Expand, Add, Errored.
  rewrite Ho.
  destruct (Z.leb_spec (n + len (wrappers.Bytes p)) (len (wrappers.Bytes p))); [lia|].
  destruct (Z.gtb_spec (n + len (wrappers.Bytes p)) (MaxSize p)); [|lia].
  rewrite He. reflexivity.
Qed.

Lemma appended_appending data p :
  len (wrappers.Bytes p) + len data <= MaxSize p -> appending (appended data p).
Proof. intros H. unfold appending, appended; cbn [MaxSize wrappers.Bytes Offset Err]. autorewrite with len. auto. Qed.

Lemma PackFixedBytes_fits bs p :
  appending p -> len (wrappers.Bytes p) + len bs <= MaxSize p ->
  PackFixedBytes bs p = appended bs p.
Proof.
  intros Ha Hfit. unfold PackFixedBytes.
  destruct (Expand_write_append bs p Ha Hfit) as [-> ->]. reflexivity.
Qed.

Lemma PackShort_fits v p :
  appending p -> len (wrappers.Bytes p) + 2 <= MaxSize p ->
  PackShort v p = appended (be_encode 2 v) p.
Proof.
  intros Ha Hfit. unfold PackShort.
  change ShortLen with (len (be_encode 2 v)).
  destruct (Expand_write_append (be_encode 2 v) p Ha) as [-> ->]; [|reflexivity].
  autorewrite with len. exact Hfit.
Qed.

Lemma PackInt_fits v p :
  appending p -> len (wrappers.Bytes p) + 4 <= MaxSize p ->
  PackInt v p = appended (be_encode 4 v) p.
Proof.
  intros Ha Hfit. unfold PackInt.
  change IntLen with (len (be_encode 4 v)).
  destruct (Expand_write_append (be_encode 4 v) p Ha) as [-> ->]; [|reflexivity].
  autorewrite with len. exact Hfit.
Qed.

Lemma PackLong_fits v p :
  appending p -> len (wrappers.Bytes p) + 8 <= MaxSize p ->
  PackLong v p = appended (be_encode 8 v) p.
Proof.
  intros Ha Hfit. unfold PackLong.
  change LongLen with (len (be_encode 8 v)).
  destruct (Expand_write_append (be_encode 8 v) p Ha) as [-> ->]; [|reflexivity].
  autorewrite with len. exact Hfit.
Qed.

Lemma PackBytes_fits bs p :
  appending p -> len (wrappers.Bytes p) + 4 + len bs <= MaxSize p ->
  PackBytes bs p = appended (be_encode 4 (uint32 (len bs)) ++ bs) p.
Proof.
  intros Ha Hfit. pose proof (len_nonneg bs). unfold PackBytes.
  rewrite PackInt_fits by (auto; lia).
  rewrite PackFixedBytes_fits.
  - unfold appended; cbn [MaxSize wrappers.Bytes Offset Err]. rewrite <- !app_assoc. reflexivity.
  - apply appended_appending. autorewrite with len. lia.
  - unfold appended; cbn [MaxSize wrappers.Bytes Offset Err]. autorewrite with len. lia.
Qed.

Lemma PackLong_too_large v p :
  appending p -> MaxSize p < len (wrappers.Bytes p) + 8 -> Errored (PackLong v p) = true.
Proof.
  intros Ha Hbig. unfold PackLong. rewrite (Expand_too_large LongLen p Ha Hbig).
  apply Expand_too_large; assumption.
Qed.

Lemma PackBytes_too_large bs p :
  appending p -> MaxSize p < len (wrappers.Bytes p) + 4 + len bs ->
  Errored (PackBytes bs p) = true.
Proof.
  intros Ha Hbig. unfold PackBytes.
  destruct (Z_le_gt_dec (len (wrappers.Bytes p) + 4) (MaxSize p)) as [Hfit|Hno].
  - rewrite PackInt_fits by assumption.
    unfold PackFixedBytes.
    assert (Errored (Expand (len bs) (appended (be_encode 4 (uint32 (len bs))) p)) = true) as ->.
    { apply Expand_too_large.
      - apply appended_appending. autorewrite with len. lia.
      - unfold appended; cbn [MaxSize wrappers.Bytes Offset Err]. autorewrite with len. lia. }
    apply Expand_too_large.
    + apply appended_appending. autorewrite with len. lia.
    + unfold appended; cbn [MaxSize wrappers.Bytes Offset Err]. autorewrite with len. lia.
  - assert (Errored (PackInt (uint32 (len bs)) p) = true) as He.
    { unfold PackInt. rewrite (Expand_too_large IntLen p Ha) by (unfold IntLen; lia).
      apply Expand_too_large; [assumption | unfold IntLen; lia]. }
    unfold PackFixedBytes. rewrite (Expand_errored _ _ He). apply Expand_errored, He.
Qed.

(** ** Marshalling *)

Lemma len_envelope mPb :
  len (envelope mPb)
  = 34 + len (prntID (mHeader mPb)) + len (Raw (valCert (mHeader mPb)))
    + len (signature (mHeader mPb)) + len (wrpdBytes mPb).
Proof. unfold envelope. cbv zeta. autorewrite with len. lia. Qed.

Ltac packer_side :=
  first
    [ assumption
    | apply appended_appending; unfold appended in *;
      cbn [MaxSize wrappers.Bytes Offset Err] in *; autorewrite with len in *; lia
    | unfold appended in *;
      cbn [MaxSize wrappers.Bytes Offset Err] in *; autorewrite with len in *; lia ].

Ltac pack_fits lem :=
  rewrite lem by packer_side;
  match goal with
  | |- context [Errored (appended ?d ?p)] =>
    change (Errored (appended d p)) with false; cbv iota
  end.

Lemma marshal_fits mPb :
  len (envelope mPb) <= MaxEnvelopeSize -> marshal mPb = Ok (envelope mPb).
Proof.
  intros Hfit. rewrite len_envelope in Hfit. unfold MaxEnvelopeSize in Hfit.
  pose proof (len_nonneg (prntID (mHeader mPb))).
  pose proof (len_nonneg (Raw (valCert (mHeader mPb)))).
  pose proof (len_nonneg (signature (mHeader mPb))).
  pose proof (len_nonneg (wrpdBytes mPb)).
  unfold marshal, PackX509Certificate. change (Z.shiftl 1 18) with 262144.
  assert (appending (mkPacker None 262144 [] 0)) as Hp0
    by (unfold appending, len; simpl; repeat split; lia).
  set (p0 := mkPacker None 262144 [] 0) in *.
  assert (MaxSize p0 = 262144) as HM by reflexivity.
  assert (len (wrappers.Bytes p0) = 0) as HB by reflexivity.
  pack_fits PackShort_fits.
  pack_fits PackBytes_fits.
  pack_fits PackLong_fits.
  pack_fits PackLong_fits.
  pack_fits PackBytes_fits.
  pack_fits PackBytes_fits.
  pack_fits PackBytes_fits.
  unfold appended, envelope; cbn [wrappers.Bytes]. subst p0. cbn [wrappers.Bytes].
  rewrite <- !app_assoc. reflexivity.
Qed.

Ltac pack_step fits too_large n :=
  match goal with
  | |- context [Errored (?f ?v ?p)] =>
    let H := fresh "Hstep" in
    destruct (Z_le_gt_dec (len (wrappers.Bytes p) + n) (MaxSize p)) as [H|H];
    [ rewrite (fits v p) by packer_side;
      change (Errored (appended ?d p)) with false; cbv iota
    | rewrite (too_large v p) by (first [packer_side | lia]); reflexivity ]
  end.

Lemma marshal_too_large mPb :
  MaxEnvelopeSize < len (envelope mPb) -> marshal mPb = Fail ErrProBlkFailedParsing.
Proof.
  intros Hbig. rewrite len_envelope in Hbig. unfold MaxEnvelopeSize in Hbig.
  pose proof (len_nonneg (prntID (mHeader mPb))).
  pose proof (len_nonneg (Raw (valCert (mHeader mPb)))).
  pose proof (len_nonneg (signature (mHeader mPb))).
  pose proof (len_nonneg (wrpdBytes mPb)).
  unfold marshal, PackX509Certificate. change (Z.shiftl 1 18) with 262144.
  assert (appending (mkPacker None 262144 [] 0)) as Hp0
    by (unfold appending, len; simpl; repeat split; lia).
  set (p0 := mkPacker None 262144 [] 0) in *.
  assert (MaxSize p0 = 262144) as HM by reflexivity.
  assert (len (wrappers.Bytes p0) = 0) as HB by reflexivity.
  pack_fits PackShort_fits.
  pack_step PackBytes_fits PackBytes_too_large (4 + len (prntID (mHeader mPb))).
  pack_step PackLong_fits PackLong_too_large 8.
  pack_step PackLong_fits PackLong_too_large 8.
  pack_step PackBytes_fits PackBytes_too_large (4 + len (Raw (valCert (mHeader mPb)))).
  pack_step PackBytes_fits PackBytes_too_large (4 + len (signature (mHeader mPb))).
  rewrite PackBytes_too_large by (first [packer_side | lia]). reflexivity.
Qed.

(** [marshal] yields the envelope of the specification when it is at most
    [MaxEnvelopeSize] bytes long, and fails otherwise. *)
Lemma marshal_spec mPb :
  marshal mPb = if len (envelope mPb) <=? MaxEnvelopeSize
                then Ok (envelope mPb) else Fail ErrProBlkFailedParsing.
Proof.
  destruct (Z.leb_spec (len (envelope mPb)) MaxEnvelopeSize).
  - now apply marshal_fits.
  - now apply marshal_too_large.
Qed.

(** ** The packer, reading *)

Lemma reading_room p data rest :
  reading p (data ++ rest) -> len data <= len (wrappers.Bytes p) - Offset p.
Proof.
  intros (_ & Ho & Hd).
  apply (f_equal (@length byte)) in Hd. rewrite length_drop, length_app in Hd.
  unfold len in *. lia.
Qed.

Lemma CheckSpace_reading p data rest :
  reading p (data ++ rest) -> CheckSpace (len data) p = p.
Proof.
  intros Hr. pose proof (reading_room _ _ _ Hr) as Hroom.
  destruct Hr as (_ & Ho & _). pose proof (len_nonneg data).
  unfold CheckSpace.
  destruct (Z.ltb_spec (Offset p) 0); [lia|].
  destruct (Z.ltb_spec (len data) 0); [lia|].
  destruct (Z.ltb_spec (len (wrappers.Bytes p) - Offset p) (len data)); [lia|].
  reflexivity.
Qed.

Lemma slice_reading p data rest :
  reading p (data ++ rest) ->
  slice (wrappers.Bytes p) (Offset p) (Offset p + len data) = data.
Proof.
  intros (_ & Ho & Hd). unfold slice. rewrite Hd.
  replace (Z.to_nat (Offset p + len data - Offset p)) with (length data)
    by (unfold len; lia).
  apply take_app_length.
Qed.

Lemma reading_advance p data rest :
  reading p (data ++ rest) -> reading (setOffset (Offset p + len data) p) rest.
Proof.
  intros Hr. pose proof (reading_room _ _ _ Hr) as Hroom.
  destruct Hr as (He & Ho & Hd). pose proof (len_nonneg data).
  unfold reading, setOffset; cbn [Err Offset wrappers.Bytes].
  split; [assumption|]. split; [lia|].
  replace (Z.to_nat (Offset p + len data)) with (Z.to_nat (Offset p) + length data)%nat
    by (unfold len; lia).
  rewrite <- drop_drop, Hd. apply drop_app_length.
Qed.

Lemma reading_not_errored p rest : reading p rest -> Errored p = false.
Proof. intros (He & _). unfold Errored. now rewrite He. Qed.

Lemma UnpackFixedBytes_reading p data rest :
  reading p (data ++ rest) ->
  UnpackFixedBytes (len data) p = (data, setOffset (Offset p + len data) p).
Proof.
  intros Hr. unfold UnpackFixedBytes.
  rewrite (CheckSpace_reading _ _ _ Hr), (reading_not_errored _ _ Hr).
  now rewrite (slice_reading _ _ _ Hr).
Qed.

Lemma UnpackShort_reading p v rest :
  reading p (be_encode 2 v ++ rest) ->
  UnpackShort p = (uint16 v, setOffset (Offset p + 2) p)
  /\ reading (setOffset (Offset p + 2) p) rest.
Proof.
  intros Hr. split; [|apply (reading_advance _ _ _ Hr)].
  unfold UnpackShort. change ShortLen with (len (be_encode 2 v)).
  rewrite (CheckSpace_reading _ _ _ Hr), (reading_not_errored _ _ Hr).
  now rewrite (slice_reading _ _ _ Hr), be_decode_encode.
Qed.

Lemma UnpackInt_reading p v rest :
  reading p (be_encode 4 v ++ rest) ->
  UnpackInt p = (uint32 v, setOffset (Offset p + 4) p)
  /\ reading (setOffset (Offset p + 4) p) rest.
Proof.
  intros Hr. split; [|apply (reading_advance _ _ _ Hr)].
  unfold UnpackInt. change IntLen with (len (be_encode 4 v)).
  rewrite (CheckSpace_reading _ _ _ Hr), (reading_not_errored _ _ Hr).
  now rewrite (slice_reading _ _ _ Hr), be_decode_encode.
Qed.

Lemma UnpackLong_reading p v rest :
  reading p (be_encode 8 v ++ rest) ->
  UnpackLong p = (uint64 v, setOffset (Offset p + 8) p)
  /\ reading (setOffset (Offset p + 8) p) rest.
Proof.
  intros Hr. split; [|apply (reading_advance _ _ _ Hr)].
  unfold UnpackLong. change LongLen with (len (be_encode 8 v)).
  rewrite (CheckSpace_reading _ _ _ Hr), (reading_not_errored _ _ Hr).
  now rewrite (slice_reading _ _ _ Hr), be_decode_encode.
Qed.

Lemma uint32_len (bs : list byte) : len bs < 2 ^ 32 -> uint32 (uint32 (len bs)) = len bs.
Proof.
  intros H. pose proof (len_nonneg bs). unfold uint32.
  rewrite Z.mod_mod, Z.mod_small; lia.
Qed.

Lemma UnpackBytes_reading p bs rest :
  len bs < 2 ^ 32 ->
  reading p ((be_encode 4 (uint32 (len bs)) ++ bs) ++ rest) ->
  UnpackBytes p = (bs, setOffset (Offset p + (4 + len bs)) p)
  /\ reading (setOffset (Offset p + (4 + len bs)) p) rest.
Proof.
  intros Hlen Hr. rewrite <- app_assoc in Hr. unfold UnpackBytes.
  destruct (UnpackInt_reading _ _ _ Hr) as [-> Hr']. clear Hr. rename Hr' into Hr.
  rewrite uint32_len by assumption.
  rewrite (UnpackFixedBytes_reading _ _ _ Hr).
  apply reading_advance in Hr.
  unfold setOffset in *; cbn [Err MaxSize wrappers.Bytes Offset] in *.
  replace (Offset p + (4 + len bs)) with (Offset p + 4 + len bs) by lia.
  split; [reflexivity | assumption].
Qed.

(** ** Unmarshalling *)

Lemma UnpackX509Certificate_reading `{Extern} p c rest :
  wellFormedCert c -> len (Raw c) < 2 ^ 32 ->
  reading p ((be_encode 4 (uint32 (len (Raw c))) ++ Raw c) ++ rest) ->
  exists q, UnpackX509Certificate p = (q, setOffset (Offset p + (4 + len (Raw c))) p)
            /\ match q with Some c' => c' | None => emptyCertificate end = c
            /\ reading (setOffset (Offset p + (4 + len (Raw c))) p) rest.
Proof.
  intros Hwf Hlen Hr. unfold UnpackX509Certificate.
  destruct (UnpackBytes_reading _ _ _ Hlen Hr) as [-> Hr'].
  rewrite (reading_not_errored _ _ Hr').
  destruct Hwf as [-> | [Hne Hparse]].
  - exists None. auto.
  - destruct (Z.eqb_spec (len (Raw c)) 0) as [Hz|_].
    + apply len_zero_nil in Hz. contradiction.
    + rewrite Hparse. exists (Some c). auto.
Qed.

Lemma unmarshal_envelope `{Extern} (x r : marshallingProposerBLock) :
  wellFormed x -> len (prntID (mHeader r)) = IDLen ->
  unmarshal r (envelope x) = (x, None).
Proof.
  intros (Hv & Hp & Ht & Hh & Hc & Hsz) Hr32.
  rewrite len_envelope in Hsz. unfold MaxEnvelopeSize, IDLen in *.
  destruct x as [[v prnt ts ht cert sig] wb]. cbn [mHeader wrpdBytes version prntID timestamp pChainHeight valCert signature] in *.
  pose proof (len_nonneg prnt). pose proof (len_nonneg (Raw cert)).
  pose proof (len_nonneg sig). pose proof (len_nonneg wb).
  assert (len prnt < 2 ^ 32) as Hlp by lia.
  assert (len (Raw cert) < 2 ^ 32) as Hlc by lia.
  assert (len sig < 2 ^ 32) as Hls by lia.
  assert (len wb < 2 ^ 32) as Hlw by lia.
  unfold unmarshal.
  assert (reading (mkPacker None 0 (envelope (mkMarshalling (mkHeader v prnt ts ht cert sig) wb)) 0)
                  (envelope (mkMarshalling (mkHeader v prnt ts ht cert sig) wb))) as Hr.
  { unfold reading; cbn [Err Offset wrappers.Bytes].
    split; [reflexivity|]. split; [pose proof (len_nonneg (envelope (mkMarshalling (mkHeader v prnt ts ht cert sig) wb))); lia | reflexivity]. }
  set (p0 := mkPacker None 0 _ 0) in *. clearbody p0.
  unfold envelope in Hr; cbn [mHeader wrpdBytes version prntID timestamp pChainHeight valCert signature] in Hr.
  (* version *)
  destruct (UnpackShort_reading _ _ _ Hr) as [-> Hr0]. clear Hr. rename Hr0 into Hr.
  cbv beta iota zeta. rewrite (reading_not_errored _ _ Hr).
  (* parent id *)
  destruct (UnpackBytes_reading _ _ _ Hlp Hr) as [-> Hr1]. clear Hr.
  cbv beta iota zeta. rewrite (reading_not_errored _ _ Hr1).
  cbn [mHeader wrpdBytes version prntID timestamp pChainHeight valCert signature].
  assert ((len prnt =? IDLen) = true) as -> by (apply Z.eqb_eq; exact Hp).
  cbn [negb].
  (* timestamp and height *)
  destruct (UnpackLong_reading _ _ _ Hr1) as [-> Hr]. clear Hr1.
  cbv beta iota zeta. rewrite (reading_not_errored _ _ Hr).
  destruct (UnpackLong_reading _ _ _ Hr) as [-> Hr1]. clear Hr.
  cbv beta iota zeta. rewrite (reading_not_errored _ _ Hr1).
  (* certificate *)
  destruct (UnpackX509Certificate_reading _ _ _ Hc Hlc Hr1) as (q & -> & Hq & Hr2).
  clear Hr1. cbv beta iota zeta. rewrite (reading_not_errored _ _ Hr2).
  (* signature and inner bytes *)
  destruct (UnpackBytes_reading _ _ _ Hls Hr2) as [-> Hr3]. clear Hr2.
  cbv beta iota zeta. rewrite (reading_not_errored _ _ Hr3).
  rewrite <- (app_nil_r (_ ++ wb)) in Hr3.
  destruct (UnpackBytes_reading _ _ _ Hlw Hr3) as [-> Hr4]. clear Hr3.
  cbv beta iota zeta. rewrite (reading_not_errored _ _ Hr4).
  unfold setSignature.
  cbn [mHeader wrpdBytes version prntID timestamp pChainHeight valCert signature].
  rewrite Hq.
  assert (uint16 v = v) as -> by (apply Z.mod_small; lia).
  assert (copy_into (prntID (mHeader r)) prnt = prnt) as ->
    by (apply copy_into_same_length; unfold len in *; lia).
  assert (uint64 (uint64 ts) = uint64 ts) as -> by (apply Z.mod_mod; lia).
  rewrite int64_uint64 by lia.
  assert (uint64 ht = ht) as -> by (apply Z.mod_small; lia).
  reflexivity.
Qed.

(** ** Time *)

Lemma int64_small z : - 2 ^ 63 <= z < 2 ^ 63 -> int64 z = z.
Proof.
  intros Hz. unfold int64.
  destruct (Z.le_gt_cases 0 z) as [Hp|Hn].
  - rewrite Z.mod_small by lia.
    destruct (Z.ltb_spec z (2 ^ 63)); [reflexivity | lia].
  - assert (z mod 2 ^ 64 = z + 2 ^ 64) as ->
      by (symmetry; apply (Z.mod_unique z (2 ^ 64) (-1)); lia).
    destruct (Z.ltb_spec (z + 2 ^ 64) (2 ^ 63)); lia.
Qed.

(** A reading is its seconds and its nanoseconds. *)
Lemma time_split t : t = Second * (t / Second) + time_nsec t /\ 0 <= time_nsec t < Second.
Proof.
  unfold time_nsec. split.
  - apply Z.div_mod. unfold Second. lia.
  - apply Z.mod_pos_bound. unfold Second. lia.
Qed.

(** [Before] and [After], which compare the seconds and then the
    nanoseconds, order the readings as instants. *)
Lemma time_Before_lt t u : time_Before t u = (t <? u).
Proof.
  unfold time_Before, time_sec. cbv zeta.
  destruct (time_split t) as [Ht Hrt], (time_split u) as [Hu Hru].
  unfold Second in *.
  destruct (Z.ltb_spec (t / 1000000000 + unixToInternal) (u / 1000000000 + unixToInternal)),
           (Z.eqb_spec (t / 1000000000 + unixToInternal) (u / 1000000000 + unixToInternal)),
           (Z.ltb_spec (time_nsec t) (time_nsec u)),
           (Z.ltb_spec t u); cbn; try reflexivity; lia.
Qed.

Lemma time_After_gt t u : time_After t u = (t >? u).
Proof.
  unfold time_After, time_sec. cbv zeta.
  destruct (time_split t) as [Ht Hrt], (time_split u) as [Hu Hru].
  unfold Second in *.
  destruct (Z.gtb_spec (t / 1000000000 + unixToInternal) (u / 1000000000 + unixToInternal)),
           (Z.eqb_spec (t / 1000000000 + unixToInternal) (u / 1000000000 + unixToInternal)),
           (Z.gtb_spec (time_nsec t) (time_nsec u)),
           (Z.gtb_spec t u); cbn; try reflexivity; lia.
Qed.

(** Within the range of [time.Time], [time.Unix(sec, 0)] is the instant
    [sec] seconds after the epoch, and [Add] adds the duration. *)
Lemma time_Unix_exact sec : representable (sec * Second) -> time_Unix sec 0 = sec * Second.
Proof.
  unfold representable, time_sec, time_Unix, unixTime. intros Hr.
  rewrite Z.div_mul in Hr by (unfold Second; lia).
  change ((0 <? 0) || (0 >=? Second)) with false. cbv iota.
  rewrite int64_small by lia. lia.
Qed.

Lemma time_Add_exact t d : representable (t + d) -> time_Add t d = t + d.
Proof.
  unfold representable, time_Add. intros Hr.
  destruct (time_split t) as [Ht Hrt].
  destruct (time_split (t + d)) as [Htd Hrtd].
  pose proof (Z.quot_rem' d Second) as Hd.
  assert (- Second < Z.rem d Second < Second) as Hrd.
  { pose proof (Z.rem_bound_abs d Second). unfold Second in *. lia. }
  set (dq := Z.quot d Second) in *. set (dr := Z.rem d Second) in *.
  assert (forall k n, 0 <= n < Second -> t + d = Second * (t / Second + k) + n ->
            (addSec (time_sec t) k - unixToInternal) * Second + n = t + d) as Hk.
  { intros k n Hn E.
    assert ((t + d) / Second = t / Second + k) as Hq by (unfold Second in *; lia).
    unfold addSec, time_sec in *. cbv zeta. rewrite Hq in Hr.
    replace (t / Second + unixToInternal + k) with (t / Second + k + unixToInternal) by lia.
    rewrite int64_small by lia.
    destruct (Z.gtb_spec (t / Second + k + unixToInternal) (t / Second + unixToInternal)),
             (Z.gtb_spec k 0); cbn [Bool.eqb]; lia. }
  destruct (Z.geb_spec (time_nsec t + dr) Second).
  { apply Hk; unfold Second in *; lia. }
  destruct (Z.ltb_spec (time_nsec t + dr) 0).
  { apply Hk; unfold Second in *; lia. }
  apply Hk; unfold Second in *; lia.
Qed.

(** ** Verify *)

Ltac verify_prelude H :=
  let Hver := fresh "Hver" in
  let Hinner := fresh "Hinner" in
  let Hparent := fresh "Hparent" in
  destruct H as (Hver & Hinner & Hparent);
  unfold verifyError, Verify; rewrite Hver, Hinner, Hparent;
  cbn [negb Z.eqb proBlkVersion].

(** Case analysis on whatever [Verify] still branches on in [H]. *)
Ltac verify_cases H :=
  repeat (match type of H with
          | context [if ?c then _ else _] => destruct c
          | context [match ?x with _ => _ end] => destruct x
          end; cbn in H; try discriminate).

Lemma copy_into_fresh (l : list byte) : copy_into (repeat x00 (length l)) l = l.
Proof. apply copy_into_same_length, repeat_length. Qed.

(** What the signature step leaves of the receiver: the block itself, its
    [bytes] no longer nil. *)
Lemma Verify_restores pb :
  let blkSignature := copy_into (repeat x00 (length (signature (header pb))))
                                (signature (header pb)) in
  let pb1 := setHeaderSignature [] pb in
  let blkBytes := copy_into (repeat x00 (length (contents (bytes pb1))))
                            (contents (bytes pb1)) in
  setBlockBytes (Some blkBytes)
    (setHeaderSignature blkSignature (setBlockBytes (Some []) pb1))
  = setBlockBytes (Some (contents (bytes pb))) pb.
Proof.
  destruct pb as [[v p t h c s] core i b]. cbv zeta.
  unfold setBlockBytes, setHeaderSignature, setSignature.
  cbn [header coreBlk id bytes version prntID timestamp pChainHeight valCert signature].
  now rewrite !copy_into_fresh.
Qed.

Lemma getBytes_signedEnvelope pb :
  getBytes (setBlockBytes (Some []) (setHeaderSignature [] pb)) = signedEnvelope pb.
Proof. reflexivity. Qed.

Lemma getBytes_cleared pb : getBytes (setHeaderSignature [] pb) = signedEnvelope pb.
Proof. reflexivity. Qed.

(** A block that passes checks 1 to 9 is accepted or refused by the
    signature check alone, run over [signedEnvelope]. *)
Lemma Verify_signature_step `{Extern} (vm : VM) (pb prntBlk : ProposerBlock)
    (st st' : innerState) (nodeID : ShortID) :
  passesChecks1to3 vm pb st st' prntBlk ->
  passesHeightChecks vm pb prntBlk ->
  passesTimestampChecks vm pb prntBlk nodeID ->
  Verify vm pb st
  = (st', setBlockBytes (Some (contents (bytes pb))) pb,
     match CheckSignature (valCert (header pb)) (SignatureAlgorithm (valCert (header pb)))
                          (signedEnvelope pb) (signature (header pb)) with
     | Some _ => Some ErrInvalidSignature
     | None => None
     end).
Proof.
  intros H123 [Hh1 Hh2] (Ht1 & Hid & Ht2 & Ht3).
  destruct H123 as (Hver & Hinner & Hparent).
  unfold Verify. rewrite Hver, Hinner, Hparent, Hid. cbn [negb Z.eqb proBlkVersion].
  rewrite time_Before_lt, time_After_gt.
  destruct (Z.ltb_spec (pChainHeight (header pb)) (pChainHeight (header prntBlk))); [lia|].
  destruct (Z.gtb_spec (pChainHeight (header pb)) (vm_pChainHeight vm)); [lia|].
  destruct (Z.ltb_spec (timestamp (header pb)) (timestamp (header prntBlk))); [lia|].
  destruct (Z.ltb_spec (time_Unix (timestamp (header pb)) 0)
              (time_Add (time_Unix (timestamp (header prntBlk)) 0)
                 (vm_BlkSubmissionDelay vm (pChainHeight (header pb)) nodeID))); [lia|].
  destruct (Z.gtb_spec (time_Unix (timestamp (header pb)) 0)
              (time_Add (vm_now vm) BlkSubmissionTolerance)); [lia|].
  cbv zeta. rewrite getBytes_signedEnvelope.
  pose proof (Verify_restores pb) as Hrest. cbv zeta in Hrest. rewrite Hrest.
  cbn [header setBlockBytes].
  destruct (CheckSignature _ _ _ _); reflexivity.
Qed.

(** C7 — for a block that passes checks 1 to 3 (current version, inner
    block verified, parent found), [Verify] fails with [WrongHeight] exactly
    when the reference height is strictly below the parent's or strictly
    above the VM's current reference height; a height equal to either bound
    is admitted. *)
Theorem Verify_wrong_height_iff `{Extern} (vm : VM) (pb prntBlk : ProposerBlock)
    (st st' : innerState) :
  passesChecks1to3 vm pb st st' prntBlk ->
  (verifyError vm pb st = Some ErrProBlkWrongHeight
   <-> pChainHeight (header pb) < pChainHeight (header prntBlk)
       \/ pChainHeight (header pb) > vm_pChainHeight vm).
Proof.
  intros Hpass. verify_prelude Hpass.
  destruct (Z.ltb_spec (pChainHeight (header pb)) (pChainHeight (header prntBlk))).
  { cbn. split; [intros _; lia | reflexivity]. }
  destruct (Z.gtb_spec (pChainHeight (header pb)) (vm_pChainHeight vm)).
  { cbn. split; [intros _; lia | reflexivity]. }
  split; [|lia]. intros Herr. exfalso. verify_cases Herr.
Qed.



(** C3, as the code has it — a block whose version is not 0 is refused by
    [Verify] before any other check, with the error built on the spot from
    the message "codecVersion not matching"; the state and the block are
    left as they were, whatever the inner block, the parent, the VM and the
    collaborators would answer. *)
Theorem Verify_version_mismatch `{Extern} (vm : VM) (pb : ProposerBlock) (st : innerState) :
  version (header pb) <> proBlkVersion ->
  Verify vm pb st = (st, pb, Some (Errorf "codecVersion not matching")).
Proof.
  intros Hv. unfold Verify.
  destruct (Z.eqb_spec (version (header pb)) proBlkVersion); [contradiction|].
  reflexivity.
Qed.

(** C3, as stated, fails: the error of a version mismatch is not the
    [FailedParsing] sentinel. *)
Lemma Verify_version_mismatch_not_FailedParsing :
  ~ (forall (E : Extern) (vm : VM) (pb : ProposerBlock) (st : innerState),
        version (header pb) <> 0 ->
        verifyError vm pb st = Some ErrProBlkFailedParsing).
Proof.
  intros Hall.
  assert (version (header (withVersion 1 childBlock)) <> 0) as Hv by (cbn; lia).
  specialize (Hall exampleExtern exampleVM (withVersion 1 childBlock) newState Hv).
  vm_compute in Hall. discriminate Hall.
Qed.

(** C9 — whatever [Verify] returns, it leaves the receiver's header
    (signature included), inner block and id as they were, and the contents
    of its [bytes] too; a receiver whose [bytes] is not nil is left
    unchanged altogether. *)
Theorem Verify_preserves_receiver `{Extern} (vm : VM) (pb : ProposerBlock) (st : innerState) :
  let pb' := snd (fst (Verify vm pb st)) in
  signature (header pb') = signature (header pb)
  /\ contents (bytes pb') = contents (bytes pb)
  /\ header pb' = header pb /\ coreBlk pb' = coreBlk pb /\ id pb' = id pb
  /\ (bytes pb <> None -> pb' = pb).
Proof.
  cbv zeta.
  assert (snd (fst (Verify vm pb st)) = pb
          \/ snd (fst (Verify vm pb st)) = setBlockBytes (Some (contents (bytes pb))) pb)
    as [-> | ->].
  { unfold Verify.
    pose proof (Verify_restores pb) as Hrest. cbv zeta in Hrest.
    repeat (match goal with
            | |- context [if ?c then _ else _] => destruct c
            | |- context [match ?x with _ => _ end] => destruct x
            end; cbn [fst snd]; auto).
    all: cbv zeta; rewrite ?Hrest; cbn [fst snd]; auto. }
  - repeat split; reflexivity.
  - repeat split; try reflexivity.
    intros Hb. destruct pb as [h c i [b|]]; [reflexivity | contradiction].
Qed.



(** ** The caches *)

(** C8 — [Accept] returns the inner block's error as it is and leaves
    the state untouched when the inner accept fails; when it succeeds,
    the entry of the parent id is gone from the primary cache, and so is
    the entry of that parent's inner id from the inverse cache; the
    persistent stores are not written. *)
Theorem Accept_evicts_parent (pb : ProposerBlock) (st : innerState) :
  (forall err, blk_Accept (coreBlk pb) = Some err -> Accept pb st = (st, Some err))
  /\ (blk_Accept (coreBlk pb) = None ->
      exists st', Accept pb st = (st', None)
        /\ knownProBlocks st' = delete (prntID (header pb)) (knownProBlocks st)
        /\ wrpdToProID st'
           = match knownProBlocks st !! prntID (header pb) with
             | Some prnt => delete (blk_ID (coreBlk prnt)) (wrpdToProID st)
             | None => wrpdToProID st
             end
        /\ proBlkDB st' = proBlkDB st /\ wrpdToProIDDB st' = wrpdToProIDDB st
        /\ baseDB st' = baseDB st).
Proof.
  unfold Accept. split.
  - intros err ->. reflexivity.
  - intros ->. eexists. split; [reflexivity|].
    unfold wipeFromCacheProBlk.
    destruct (knownProBlocks st !! prntID (header pb)) eqn:E; cbn.
    + repeat split; reflexivity.
    + repeat split; try reflexivity. symmetry. now apply delete_id.
Qed.

(** A failure of either [Put] or of [CommitBatch] evicts a block that the
    primary cache holds under its id, from both caches. *)
Lemma commitBlk_early_failure_evicts (blk : ProposerBlock) (st st' : innerState)
    (err : error) :
  knownProBlocks st !! id blk = Some blk ->
  kv_putErr (proBlkDB st) = Some err
  \/ (kv_putErr (proBlkDB st) = None /\ kv_putErr (wrpdToProIDDB st) = Some err)
  \/ (kv_putErr (proBlkDB st) = None /\ kv_putErr (wrpdToProIDDB st) = None
      /\ vdb_commitBatchErr (baseDB st) = Some err) ->
  commitBlk blk st = (st', Some err) ->
  knownProBlocks st' !! id blk = None
  /\ wrpdToProID st' !! blk_ID (coreBlk blk) = None.
Proof.
  intros Hc Hfail. unfold commitBlk, Put, Abort, wipeFromCacheProBlk, ID_of.
  destruct Hfail as [Hp | [(Hp & Hw) | (Hp & Hw & Hb)]].
  - rewrite Hp. cbn. rewrite Hc. intros [= <-]. cbn.
    split; apply lookup_delete_eq.
  - rewrite Hp. cbn. rewrite Hw. cbn. rewrite Hc. intros [= <-]. cbn.
    split; apply lookup_delete_eq.
  - rewrite Hp. cbn. rewrite Hw. cbn. rewrite Hb, Hc. intros [= <-]. cbn.
    split; apply lookup_delete_eq.
Qed.

(** When only the write of the batch fails, [commitBlk] returns its error
    and the caches are as before. *)
Lemma commitBlk_write_failure_keeps_caches (blk : ProposerBlock) (st : innerState)
    (err : error) :
  kv_putErr (proBlkDB st) = None -> kv_putErr (wrpdToProIDDB st) = None ->
  vdb_commitBatchErr (baseDB st) = None -> vdb_writeErr (baseDB st) = Some err ->
  exists st', commitBlk blk st = (st', Some err)
    /\ knownProBlocks st' = knownProBlocks st /\ wrpdToProID st' = wrpdToProID st.
Proof.
  intros Hp Hw Hb He. unfold commitBlk, Put, Abort.
  rewrite Hp. cbn. rewrite Hw. cbn. rewrite Hb, He. eauto.
Qed.

(** C1 fails on the code — [parentBlock] is cached and committed to a
    store whose batch write fails: [commitBlk] returns that error, and both
    caches still hold the block. *)
Theorem commitBlk_write_failure_example :
  let st := cacheProBlk parentBlock writeFailingState in
  let '(st', err) := commitBlk parentBlock st in
  err = Some (ErrOther "closed")
  /\ knownProBlocks st' !! id parentBlock = Some parentBlock
  /\ wrpdToProID st' !! blk_ID (coreBlk parentBlock) = Some (id parentBlock).
Proof.
  cbv zeta.
  destruct (commitBlk_write_failure_keeps_caches parentBlock
              (cacheProBlk parentBlock writeFailingState) (ErrOther "closed"))
    as (st' & -> & Hk & Hw); try reflexivity.
  rewrite Hk, Hw. unfold cacheProBlk, ID_of; cbn [knownProBlocks wrpdToProID setCaches].
  split; [reflexivity|]. split; apply lookup_insert_eq.
Qed.

(** The value [commitBlk] puts in the inverse store is what the inverse
    cache holds for the inner id, and 32 zero bytes when it holds nothing. *)
Lemma commitBlk_inverse_value (blk : ProposerBlock) (st st' : innerState) :
  commitBlk blk st = (st', None) ->
  kv_data (wrpdToProIDDB st') !! blk_ID (coreBlk blk)
  = Some (default zeroID (wrpdToProID st !! blk_ID (coreBlk blk))).
Proof.
  unfold commitBlk, Put, Abort, wipeFromCacheProBlk.
  destruct (kv_putErr (proBlkDB st)); cbn.
  { destruct (knownProBlocks st !! ID_of blk); intros [=]. }
  destruct (kv_putErr (wrpdToProIDDB st)); cbn.
  { destruct (knownProBlocks st !! ID_of blk); intros [=]. }
  destruct (vdb_commitBatchErr (baseDB st)); cbn.
  { destruct (knownProBlocks st !! ID_of blk); intros [=]. }
  intros [= <- _]. cbn. apply lookup_insert_eq.
Qed.

(** C2 fails on the code — [parentBlock] is committed to a new store
    without having been cached: the commit succeeds and the inverse store
    holds 32 zero bytes under the inner id, not the id of the block. *)
Theorem commitBlk_uncached_example :
  let '(st', err) := commitBlk parentBlock newState in
  err = None
  /\ kv_data (wrpdToProIDDB st') !! blk_ID (coreBlk parentBlock) = Some zeroID
  /\ zeroID <> id parentBlock.
Proof.
  destruct (commitBlk parentBlock newState) as [st' err] eqn:E.
  assert (err = None) as -> by (now inversion E).
  split; [reflexivity|]. split.
  - now rewrite (commitBlk_inverse_value _ _ _ E).
  - discriminate.
Qed.

(** A block that was cached has its id written to the inverse store. *)
Lemma commitBlk_cached_inverse_value (blk : ProposerBlock) (st st' : innerState) :
  commitBlk blk (cacheProBlk blk st) = (st', None) ->
  kv_data (wrpdToProIDDB st') !! blk_ID (coreBlk blk) = Some (id blk).
Proof.
  intros E. rewrite (commitBlk_inverse_value _ _ _ E).
  unfold cacheProBlk, ID_of; cbn [wrpdToProID setCaches].
  now rewrite lookup_insert_eq.
Qed.

(** ** Marshalling failures *)

Lemma marshal_Fail_iff mPb err :
  marshal mPb = Fail err
  <-> MaxEnvelopeSize < len (envelope mPb) /\ err = ErrProBlkFailedParsing.
Proof.
  rewrite marshal_spec.
  destruct (Z.leb_spec (len (envelope mPb)) MaxEnvelopeSize); split.
  - discriminate.
  - lia.
  - intros [= <-]. auto.
  - intros [_ ->]. reflexivity.
Qed.

(** Under the layout of the specification, the signed bytes are the
    envelope with an empty signature field whenever it fits. *)
Lemma signedEnvelope_envelope pb :
  signedEnvelope pb
  = let mPb := {| mHeader := setSignature [] (header pb);
                  wrpdBytes := blk_Bytes (coreBlk pb) |} in
    if len (envelope mPb) <=? MaxEnvelopeSize then envelope mPb else [].
Proof. unfold signedEnvelope. rewrite marshal_spec. now destruct (_ <=? _). Qed.

(** A header that cannot be marshalled without signature cannot be
    marshalled with one. *)
Lemma marshal_Fail_with_signature pb sig err :
  marshal (toMarshalling (setHeaderSignature [] pb)) = Fail err ->
  marshal (toMarshalling (setHeaderSignature sig pb)) = Fail err.
Proof.
  rewrite !marshal_Fail_iff, !len_envelope. intros [Hbig ->]. split; [|reflexivity].
  unfold toMarshalling, setHeaderSignature, setSignature in *.
  cbn [mHeader wrpdBytes header coreBlk prntID valCert signature] in *.
  pose proof (len_nonneg sig). change (len (@nil byte)) with 0 in Hbig. lia.
Qed.

Lemma getBytes_Fail pb err : marshal (toMarshalling pb) = Fail err -> getBytes pb = [].
Proof. unfold getBytes, toMarshalling. now intros ->. Qed.

(** C10 — when the envelope of a block cannot be marshalled, [getBytes]
    is the empty byte string, and so is [Bytes] on a block whose bytes are
    nil; so [NewProBlock] with nil bytes and without signing yields a block
    whose bytes are empty and whose id is the hash of the empty string;
    [sign], on a block that carries no signature yet, has the hash of the
    empty string signed; and [NewProBlock] with signing yields that id too
    when the signed header cannot be marshalled either.  No error is
    reported. *)
Theorem marshal_failure_is_silent `{Extern} (vm : VM) (pb : ProposerBlock) (err : error) :
  marshal (toMarshalling pb) = Fail err ->
  getBytes pb = []
  /\ Bytes (setBlockBytes None pb) = ([], setBlockBytes (Some []) pb)
  /\ NewProBlock vm (header pb) (coreBlk pb) None false
     = Ok {| header := header pb; coreBlk := coreBlk pb;
             id := ComputeHash256Array []; bytes := Some [] |}
  /\ (signature (header pb) = [] ->
      sign vm pb
      = match vm_stakingSigner vm with
        | None => (pb, Some ErrInvalidTLSKey)
        | Some signKey =>
          match signKey (ComputeHash256Array []) with
          | Fail e => (pb, Some e)
          | Ok sig => (setHeaderSignature sig pb, None)
          end
        end
      /\ forall signKey sig err',
          vm_stakingSigner vm = Some signKey ->
          signKey (ComputeHash256Array []) = Ok sig ->
          marshal (toMarshalling (setHeaderSignature sig pb)) = Fail err' ->
          NewProBlock vm (header pb) (coreBlk pb) None true
          = Ok {| header := setSignature sig (header pb); coreBlk := coreBlk pb;
                  id := ComputeHash256Array []; bytes := Some [] |}).
Proof.
  intros Hfail. pose proof (getBytes_Fail pb err Hfail) as Hg.
  split; [exact Hg|]. split; [|split].
  - unfold Bytes, setBlockBytes; cbn [bytes header coreBlk id].
    replace (getBytes _) with (getBytes pb) by reflexivity.
    now rewrite Hg.
  - unfold NewProBlock, Bytes, setBlockBytes, setID; cbn [bytes header coreBlk id contents].
    replace (getBytes _) with (getBytes pb) by reflexivity.
    now rewrite Hg.
  - intros Hsig.
    assert (setHeaderSignature [] pb = pb) as Hclr.
    { destruct pb as [[v p t h c s] core i b]. cbn in Hsig. now subst s. }
    split.
    { unfold sign. rewrite Hclr, Hg. reflexivity. }
    intros signKey sig err' Hkey Hok Hfail'.
    assert (forall i0 b0, sign vm {| header := header pb; coreBlk := coreBlk pb;
                                     id := i0; bytes := b0 |}
                          = ({| header := setSignature sig (header pb);
                                coreBlk := coreBlk pb; id := i0; bytes := b0 |}, None))
      as Hsign.
    { intros i0 b0. unfold sign. rewrite Hkey.
      replace (getBytes _) with (getBytes (setHeaderSignature [] pb)) by reflexivity.
      rewrite Hclr, Hg, Hok. unfold setHeaderSignature, setSignature; cbn. reflexivity. }
    unfold NewProBlock. rewrite Hsign.
    unfold Bytes, setBlockBytes, setID; cbn [bytes header coreBlk id contents].
    replace (getBytes _) with (getBytes (setHeaderSignature sig pb)) by reflexivity.
    now rewrite (getBytes_Fail (setHeaderSignature sig pb) err' Hfail').
Qed.

(** The hypothesis of C10 holds of a block whose inner bytes alone are
    [MaxEnvelopeSize] long. *)
Lemma marshal_failure_is_silent_oversized :
  marshal (toMarshalling oversizedBlock) = Fail ErrProBlkFailedParsing
  /\ @getBytes oversizedBlock = []
  /\ @NewProBlock exampleExtern exampleVM (header oversizedBlock) (coreBlk oversizedBlock)
       None false
     = Ok {| header := header oversizedBlock; coreBlk := coreBlk oversizedBlock;
             id := @ComputeHash256Array exampleExtern []; bytes := Some [] |}.
Proof.
  assert (marshal (toMarshalling oversizedBlock) = Fail ErrProBlkFailedParsing) as Hfail
    by (vm_compute; reflexivity).
  split; [exact Hfail|].
  pose proof (@marshal_failure_is_silent exampleExtern exampleVM oversizedBlock
                ErrProBlkFailedParsing Hfail) as (Hg & _ & Hn & _).
  split; [exact Hg | exact Hn].
Defined.

(** ** Round trip *)

(** C6 — for every well-formed header and inner bytes [x], [marshal]
    succeeds, [unmarshal] of the bytes succeeds and fills the receiver with
    [x] itself, and marshalling what [unmarshal] returned gives the same
    bytes again.  The genesis block (empty certificate, signature and inner
    bytes) is well-formed. *)
Theorem marshal_unmarshal_roundtrip `{Extern} (x r : marshallingProposerBLock) :
  wellFormed x -> len (prntID (mHeader r)) = IDLen ->
  exists b, marshal x = Ok b
    /\ unmarshal r b = (x, None)
    /\ marshal (fst (unmarshal r b)) = Ok b.
Proof.
  intros Hwf Hr. exists (envelope x).
  assert (marshal x = Ok (envelope x)) as Hm
    by (apply marshal_fits; apply Hwf).
  rewrite (unmarshal_envelope x r Hwf Hr). auto.
Qed.

Lemma wellFormed_genesis `{Extern} : wellFormed zeroMarshalling.
Proof.
  unfold wellFormed; cbn [mHeader zeroMarshalling version prntID timestamp pChainHeight valCert].
  repeat split; try lia; try reflexivity.
  - left. reflexivity.
  - rewrite len_envelope. vm_compute. discriminate.
Qed.

(** The round trip at the genesis envelope. *)
Lemma genesis_roundtrip :
  exists b, marshal zeroMarshalling = Ok b
    /\ @unmarshal exampleExtern zeroMarshalling b = (zeroMarshalling, None)
    /\ marshal (fst (@unmarshal exampleExtern zeroMarshalling b)) = Ok b.
Proof.
  apply (@marshal_unmarshal_roundtrip exampleExtern zeroMarshalling zeroMarshalling).
  - apply wellFormed_genesis.
  - reflexivity.
Defined.

Example genesis_parse :
  @unmarshal exampleExtern zeroMarshalling genesisBytes = (zeroMarshalling, None)
  /\ marshal zeroMarshalling = Ok genesisBytes.
Proof. split; vm_compute; reflexivity. Qed.

(** A header with a certificate, a signature and inner bytes. *)
Example certified_roundtrip :
  let x := {| mHeader := {| version := 0; prntID := repeat x01 32; timestamp := -5;
                            pChainHeight := 7;
                            valCert := {| Raw := [x04; x2a]; SignatureAlgorithm := 4;
                                          Parsed := [x04; x2a] |};
                            signature := [xde; xad] |};
              wrpdBytes := [xbe; xef] |} in
  match marshal x with
  | Ok b => @unmarshal exampleExtern zeroMarshalling b = (x, None)
  | Fail _ => False
  end.
Proof. vm_compute. reflexivity. Qed.

(** ** The scenarios of the specification, evaluated *)

Lemma example_passesChecks1to3 (pb : ProposerBlock) :
  version (header pb) = 0 -> blk_Verify (coreBlk pb) = None ->
  prntID (header pb) = repeat x01 32 ->
  @passesChecks1to3 exampleExtern exampleVM pb exampleState exampleState parentBlock.
Proof.
  intros Hv Hi Hp. unfold passesChecks1to3. rewrite Hp.
  split; [assumption|]. split; [assumption|]. vm_compute. reflexivity.
Qed.

(** Timestamp before the parent's: refused. *)
Example timestamp_before_parent :
  @verifyError exampleExtern exampleVM (withTimestamp 999 childBlock) exampleState
  = Some ErrProBlkBadTimestamp.
Proof. vm_compute. reflexivity. Qed.

(** Timestamp at the start of the window, clock at 1010 s: the timestamp
    checks pass, and the unsigned block is refused by the signature
    check. *)
Example timestamp_inside_window :
  @verifyError exampleExtern exampleVM childBlock exampleState = Some ErrInvalidSignature.
Proof. vm_compute. reflexivity. Qed.

(** One second before the window starts: refused. *)
Example timestamp_before_window :
  @verifyError exampleExtern exampleVM (withTimestamp 1004 childBlock) exampleState
  = Some ErrProBlkBadTimestamp.
Proof. vm_compute. reflexivity. Qed.

(** At the tolerance (clock plus 10 s) the timestamp is admitted; one
    second later it is refused. *)
Example timestamp_at_tolerance :
  @verifyError exampleExtern exampleVM (withTimestamp 1020 childBlock) exampleState
  = Some ErrInvalidSignature
  /\ @verifyError exampleExtern exampleVM (withTimestamp 1021 childBlock) exampleState
     = Some ErrProBlkBadTimestamp.
Proof. split; vm_compute; reflexivity. Qed.

(** A timestamp beyond the range of [time.Time] wraps: under a parent at
    2^63 - 11, the child at 2^63 - 1 passes the timestamp checks with the
    clock at 1010 s, and is refused by the signature check only. *)
Example timestamp_wraps :
  @verifyError exampleExtern exampleVM (withTimestamp (2 ^ 63 - 1) childBlock) lateState
  = Some ErrInvalidSignature.
Proof. vm_compute. reflexivity. Qed.

(** Reference height 6 under a parent at 7: refused; 7 and 10 (the VM's
    height) are admitted, 11 is refused. *)
Example height_regress :
  @verifyError exampleExtern exampleVM (withHeight 6 childBlock) exampleState
  = Some ErrProBlkWrongHeight
  /\ @verifyError exampleExtern exampleVM (withHeight 7 childBlock) exampleState
     = Some ErrInvalidSignature
  /\ @verifyError exampleExtern exampleVM (withHeight 10 childBlock) exampleState
     = Some ErrInvalidSignature
  /\ @verifyError exampleExtern exampleVM (withHeight 11 childBlock) exampleState
     = Some ErrProBlkWrongHeight.
Proof. repeat split; vm_compute; reflexivity. Qed.

(** A block signed by [sign] passes [Verify]. *)
Example signed_block_verifies :
  match @sign exampleExtern exampleVM childBlock with
  | (pb, None) => @verifyError exampleExtern exampleVM pb exampleState = None
  | (_, Some _) => False
  end.
Proof. vm_compute. reflexivity. Qed.

(** A receiver whose [bytes] is nil and which reaches the signature step
    comes back with empty, non-nil [bytes]. *)
Example Verify_nil_bytes :
  snd (fst (@Verify exampleExtern exampleVM (setBlockBytes None childBlock) exampleState))
  = setBlockBytes (Some []) childBlock.
Proof. vm_compute. reflexivity. Qed.

(** Accepting the child evicts [parentBlock] from both caches. *)
Example Accept_child :
  let st' := fst (Accept childBlock exampleState) in
  knownProBlocks exampleState !! id parentBlock = Some parentBlock
  /\ wrpdToProID exampleState !! blk_ID (coreBlk parentBlock) = Some (id parentBlock)
  /\ knownProBlocks st' !! id parentBlock = None
  /\ wrpdToProID st' !! blk_ID (coreBlk parentBlock) = None.
Proof. cbv zeta. repeat split; vm_compute; reflexivity. Qed.

(** ** The hypotheses of the theorems above, on the examples *)

(** A child at reference height 6 under [parentBlock], cached, at 7. *)
Lemma Verify_wrong_height_iff_example :
  @verifyError exampleExtern exampleVM (withHeight 6 childBlock) exampleState
  = Some ErrProBlkWrongHeight
  <-> pChainHeight (header (withHeight 6 childBlock)) < pChainHeight (header parentBlock)
      \/ pChainHeight (header (withHeight 6 childBlock)) > vm_pChainHeight exampleVM.
Proof.
  apply (@Verify_wrong_height_iff exampleExtern exampleVM (withHeight 6 childBlock)
           parentBlock exampleState exampleState).
  apply example_passesChecks1to3; reflexivity.
Defined.


(** The child with version 1. *)
Lemma Verify_version_mismatch_example :
  @Verify exampleExtern exampleVM (withVersion 1 childBlock) newState
  = (newState, withVersion 1 childBlock, Some (Errorf "codecVersion not matching")).
Proof.
  apply (@Verify_version_mismatch exampleExtern exampleVM (withVersion 1 childBlock) newState).
  unfold proBlkVersion. cbn. lia.
Defined.

(** ** Further properties of the caches *)

(** After [cacheProBlk], both lookups return the block from the caches:
    the state, persistent stores included, is returned as it was. *)
Theorem cacheProBlk_lookups `{Extern} (vm : VM) (blk : ProposerBlock) (st : innerState) :
  getProBlock vm (id blk) (cacheProBlk blk st) = (cacheProBlk blk st, Ok blk)
  /\ getBlockFromWrappedBlkID vm (blk_ID (coreBlk blk)) (cacheProBlk blk st)
     = (cacheProBlk blk st, Ok (Some blk)).
Proof.
  unfold getProBlock, getBlockFromWrappedBlkID, cacheProBlk, ID_of.
  cbn [knownProBlocks wrpdToProID setCaches].
  now rewrite !lookup_insert_eq.
Qed.

(** Caching a block twice is caching it once. *)
Theorem cacheProBlk_idempotent (blk : ProposerBlock) (st : innerState) :
  cacheProBlk blk (cacheProBlk blk st) = cacheProBlk blk st.
Proof.
  unfold cacheProBlk, setCaches; cbn [knownProBlocks wrpdToProID baseDB proBlkDB wrpdToProIDDB].
  now rewrite !insert_insert_eq.
Qed.

(** [Reject] returns the inner block's error as it is and leaves the state
    untouched when the inner reject fails; when it succeeds, the block's
    own entry is gone from the primary cache, and the entry of the cached
    block's inner id from the inverse cache. *)
Theorem Reject_evicts_self (pb : ProposerBlock) (st : innerState) :
  (forall err, blk_Reject (coreBlk pb) = Some err -> Reject pb st = (st, Some err))
  /\ (blk_Reject (coreBlk pb) = None ->
      exists st', Reject pb st = (st', None)
        /\ knownProBlocks st' = delete (id pb) (knownProBlocks st)
        /\ wrpdToProID st'
           = match knownProBlocks st !! id pb with
             | Some blk => delete (blk_ID (coreBlk blk)) (wrpdToProID st)
             | None => wrpdToProID st
             end
        /\ proBlkDB st' = proBlkDB st /\ wrpdToProIDDB st' = wrpdToProIDDB st
        /\ baseDB st' = baseDB st).
Proof.
  unfold Reject. split.
  - intros err ->. reflexivity.
  - intros ->. eexists. split; [reflexivity|].
    unfold wipeFromCacheProBlk.
    destruct (knownProBlocks st !! id pb) eqn:E; cbn.
    + repeat split; reflexivity.
    + repeat split; try reflexivity. symmetry. now apply delete_id.
Qed.

(** A failing primary [Put] on a cached block. *)
Lemma commitBlk_early_failure_evicts_example :
  knownProBlocks (fst (commitBlk parentBlock putFailingState)) !! id parentBlock = None
  /\ wrpdToProID (fst (commitBlk parentBlock putFailingState))
       !! blk_ID (coreBlk parentBlock) = None.
Proof.
  apply (commitBlk_early_failure_evicts parentBlock putFailingState
           (fst (commitBlk parentBlock putFailingState)) (ErrOther "closed")).
  - vm_compute. reflexivity.
  - left. reflexivity.
  - vm_compute. reflexivity.
Defined.

(** A successful commit of a cached block. *)
Lemma commitBlk_cached_inverse_value_example :
  kv_data (wrpdToProIDDB (fst (commitBlk parentBlock (cacheProBlk parentBlock newState))))
    !! blk_ID (coreBlk parentBlock)
  = Some (id parentBlock).
Proof.
  apply (commitBlk_cached_inverse_value parentBlock newState
           (fst (commitBlk parentBlock (cacheProBlk parentBlock newState)))).
  vm_compute. reflexivity.
Defined.

(** * Further properties *)

(** ** Verify, as a whole *)

(** [Verify] returns no error exactly when all its checks pass: the
    version is current, the inner block verifies, the parent is found, the
    reference height is within its bounds, the timestamp is not before the
    parent's, the node id is derived, the [time.Time] of the timestamp is
    neither before that of the parent's plus the submission delay nor after
    the clock plus the tolerance, and the certificate accepts the signature
    over the envelope without signature.  The two [time.Time] bounds are
    those the code computes, and a timestamp beyond the range of
    [time.Time] wraps in [time.Unix]; when the instants compared are within
    that range, the bounds are the parent's timestamp plus the delay and
    the clock plus 10 s, both admitted. *)
Theorem Verify_ok_iff `{Extern} (vm : VM) (pb : ProposerBlock) (st : innerState) :
  (verifyError vm pb st = None
   <-> exists st' prntBlk nodeID,
         passesChecks1to3 vm pb st st' prntBlk
         /\ passesHeightChecks vm pb prntBlk
         /\ passesTimestampChecks vm pb prntBlk nodeID
         /\ CheckSignature (valCert (header pb)) (SignatureAlgorithm (valCert (header pb)))
                           (signedEnvelope pb) (signature (header pb)) = None)
  /\ (forall prntBlk nodeID,
        - 2 ^ 63 <= timestamp (header prntBlk) < 2 ^ 63 ->
        representable (timestamp (header pb) * Second) ->
        representable (timestamp (header prntBlk) * Second
                       + vm_BlkSubmissionDelay vm (pChainHeight (header pb)) nodeID) ->
        representable (vm_now vm + 10 * Second) ->
        (passesTimestampChecks vm pb prntBlk nodeID
         <-> timestamp (header prntBlk) <= timestamp (header pb)
             /\ ToShortID_PubkeyBytesToAddress (Raw (valCert (header pb))) = Ok nodeID
             /\ timestamp (header prntBlk) * Second
                + vm_BlkSubmissionDelay vm (pChainHeight (header pb)) nodeID
                <= timestamp (header pb) * Second
             /\ timestamp (header pb) * Second <= vm_now vm + 10 * Second)).
Proof.
  split; [split|].
  - unfold verifyError, Verify.
    destruct (Z.eqb_spec (version (header pb)) proBlkVersion) as [Hv|]; [|discriminate].
    cbn [negb].
    destruct (blk_Verify (coreBlk pb)) eqn:Hi; [discriminate|].
    destruct (getProBlock vm (prntID (header pb)) st) as [st' [prntBlk|e]] eqn:Hp;
      [|discriminate].
    destruct (Z.ltb_spec (pChainHeight (header pb)) (pChainHeight (header prntBlk)));
      [discriminate|].
    destruct (Z.gtb_spec (pChainHeight (header pb)) (vm_pChainHeight vm)); [discriminate|].
    destruct (Z.ltb_spec (timestamp (header pb)) (timestamp (header prntBlk)));
      [discriminate|].
    destruct (ToShortID_PubkeyBytesToAddress _) as [nodeID|] eqn:Hn; [|discriminate].
    rewrite time_Before_lt, time_After_gt.
    destruct (Z.ltb_spec (time_Unix (timestamp (header pb)) 0)
                (time_Add (time_Unix (timestamp (header prntBlk)) 0)
                   (vm_BlkSubmissionDelay vm (pChainHeight (header pb)) nodeID)));
      [discriminate|].
    destruct (Z.gtb_spec (time_Unix (timestamp (header pb)) 0)
                (time_Add (vm_now vm) BlkSubmissionTolerance)); [discriminate|].
    cbv zeta. rewrite getBytes_signedEnvelope.
    pose proof (Verify_restores pb) as Hrest. cbv zeta in Hrest. rewrite Hrest.
    cbn [header setBlockBytes].
    destruct (CheckSignature _ _ _ _) eqn:Hc; [discriminate|]. intros _.
    exists st', prntBlk, nodeID.
    unfold passesChecks1to3, passesHeightChecks, passesTimestampChecks.
    repeat split; auto; lia.
  - intros (st' & prntBlk & nodeID & H1 & H2 & H3 & Hc).
    unfold verifyError. rewrite (Verify_signature_step vm pb prntBlk st st' nodeID H1 H2 H3).
    cbn [snd]. now rewrite Hc.
  - intros prntBlk nodeID Tp Rc Rd Rn. unfold passesTimestampChecks, BlkSubmissionTolerance.
    rewrite (time_Unix_exact (timestamp (header pb))) by assumption.
    rewrite (time_Add_exact (vm_now vm)) by assumption.
    assert (timestamp (header prntBlk) <= timestamp (header pb) ->
            representable (timestamp (header prntBlk) * Second)) as Rp.
    { intros Hle. unfold representable, time_sec, unixToInternal in *.
      rewrite Z.div_mul in * by (unfold Second; lia). lia. }
    split; intros (Hle & Hid & Hlo & Hhi).
    + rewrite time_Unix_exact, time_Add_exact in Hlo by auto. auto.
    + rewrite time_Unix_exact, time_Add_exact by auto. auto.
Qed.

(** ** getProBlock *)

(** [unmarshal] and [marshal] fail with [ErrProBlkFailedParsing] only. *)
Lemma unmarshal_error `{Extern} r b m err :
  unmarshal r b = (m, Some err) -> err = ErrProBlkFailedParsing.
Proof.
  unfold unmarshal.
  repeat (match goal with
          | |- context [let '(_, _) := ?x in _] => destruct x
          | |- context [if ?c then _ else _] => destruct c
          end; try (intros [= _ <-]; reflexivity)).
Qed.

Lemma marshal_error m err : marshal m = Fail err -> err = ErrProBlkFailedParsing.
Proof.
  unfold marshal.
  repeat (match goal with
          | |- context [if ?c then _ else _] => destruct c
          end; try (intros [= <-]; reflexivity)).
Qed.

Lemma NewProBlock_unsigned `{Extern} vm hdr sb bs :
  NewProBlock vm hdr sb (Some bs) false
  = Ok {| header := hdr; coreBlk := sb; id := ComputeHash256Array bs; bytes := Some bs |}.
Proof. reflexivity. Qed.

(** A failing [getProBlock] leaves the state as it was, and its error is
    [ErrProBlkNotFound] (the id is in neither the cache nor the store), the
    error wrapping [ErrProBlkFailedParsing] (the stored bytes do not
    unmarshal), or the error of the inner parser. *)
Theorem getProBlock_failure `{Extern} (vm : VM) (i : ID) (st st' : innerState) (err : error) :
  getProBlock vm i st = (st', Fail err) ->
  st' = st
  /\ knownProBlocks st !! i = None
  /\ ((kv_data (proBlkDB st) !! i = None /\ err = ErrProBlkNotFound)
      \/ exists proBytes, kv_data (proBlkDB st) !! i = Some proBytes
           /\ ((exists m, unmarshal zeroMarshalling proBytes = (m, Some ErrProBlkFailedParsing)
                  /\ err = Errorf "couldn't unmarshal proposerBlockHeader: could not parse proposer block")
               \/ exists m, unmarshal zeroMarshalling proBytes = (m, None)
                    /\ vm_ParseBlock vm (wrpdBytes m) = Fail err)).
Proof.
  unfold getProBlock, Get.
  destruct (knownProBlocks st !! i) eqn:Hc; [discriminate|].
  destruct (kv_data (proBlkDB st) !! i) as [proBytes|] eqn:Hs.
  - destruct (unmarshal zeroMarshalling proBytes) as [m [e|]] eqn:Hu.
    + pose proof (unmarshal_error _ _ _ _ Hu) as ->. intros [= <- <-].
      repeat split; auto. right. exists proBytes. split; [reflexivity|]. left. eauto.
    + destruct (vm_ParseBlock vm (wrpdBytes m)) as [sb|e] eqn:Hp.
      * rewrite NewProBlock_unsigned. discriminate.
      * intros [= <- <-]. repeat split; auto. right. exists proBytes.
        split; [reflexivity|]. right. eauto.
  - intros [= <- <-]. auto.
Qed.

(** A successful [getProBlock] returns the cached block, or the block it
    builds from the stored bytes (their header, the parsed inner block, the
    hash of the bytes as id), which it then caches under that hash and its
    inner id.  The persistent stores are never written. *)
Theorem getProBlock_success `{Extern} (vm : VM) (i : ID) (st st' : innerState)
    (blk : ProposerBlock) :
  getProBlock vm i st = (st', Ok blk) ->
  (knownProBlocks st !! i = Some blk /\ st' = st)
  \/ (knownProBlocks st !! i = None
      /\ exists proBytes m,
           kv_data (proBlkDB st) !! i = Some proBytes
           /\ unmarshal zeroMarshalling proBytes = (m, None)
           /\ vm_ParseBlock vm (wrpdBytes m) = Ok (coreBlk blk)
           /\ header blk = mHeader m
           /\ id blk = ComputeHash256Array proBytes
           /\ bytes blk = Some proBytes
           /\ st' = cacheProBlk blk st).
Proof.
  unfold getProBlock, Get.
  destruct (knownProBlocks st !! i) eqn:Hc.
  { intros [= <- <-]. auto. }
  destruct (kv_data (proBlkDB st) !! i) as [proBytes|] eqn:Hs; [|discriminate].
  destruct (unmarshal zeroMarshalling proBytes) as [m [e|]] eqn:Hu; [discriminate|].
  destruct (vm_ParseBlock vm (wrpdBytes m)) as [sb|e] eqn:Hp; [|discriminate].
  rewrite NewProBlock_unsigned. intros [= <- <-].
  right. split; [reflexivity|]. exists proBytes, m. repeat split; auto.
Qed.

(** Whatever it returns, [getProBlock] leaves the persistent stores and the
    version layer as they were. *)
Lemma getProBlock_stores `{Extern} (vm : VM) (i : ID) (st : innerState) :
  let st' := fst (getProBlock vm i st) in
  proBlkDB st' = proBlkDB st /\ wrpdToProIDDB st' = wrpdToProIDDB st
  /\ baseDB st' = baseDB st.
Proof.
  cbv zeta. unfold getProBlock, Get.
  destruct (knownProBlocks st !! i); [auto|].
  destruct (kv_data (proBlkDB st) !! i) as [proBytes|]; [|auto].
  destruct (unmarshal zeroMarshalling proBytes) as [m [e|]]; [auto|].
  destruct (vm_ParseBlock vm (wrpdBytes m)); [|auto].
  rewrite NewProBlock_unsigned. auto.
Qed.

Lemma Verify_state_cases `{Extern} (vm : VM) (pb : ProposerBlock) (st : innerState) :
  fst (fst (Verify vm pb st)) = st
  \/ fst (fst (Verify vm pb st)) = fst (getProBlock vm (prntID (header pb)) st).
Proof.
  unfold Verify.
  destruct (negb _); [auto|]. destruct (blk_Verify _); [auto|].
  destruct (getProBlock vm (prntID (header pb)) st) as [st1 [prntBlk|e]]; [|auto].
  repeat (match goal with
          | |- context [if ?c then _ else _] => destruct c
          | |- context [match ?x with _ => _ end] => destruct x
          end; cbn [fst snd]; auto).
Qed.

(** [Verify] writes nothing to the persistent stores or to the version
    layer.  On a receiver whose [bytes] is not nil, which [Verify] leaves
    as it is, the whole state it leaves is the state it was given, or that
    state after the parent lookup (which may have loaded the parent into
    the caches).  A receiver whose [bytes] is nil is written to (its
    [bytes] comes back empty), and when the primary cache holds that very
    block the cache shows the write: the statement leaves that case out. *)
Theorem Verify_state `{Extern} (vm : VM) (pb : ProposerBlock) (st : innerState) :
  let st' := fst (fst (Verify vm pb st)) in
  proBlkDB st' = proBlkDB st /\ wrpdToProIDDB st' = wrpdToProIDDB st
  /\ baseDB st' = baseDB st
  /\ (bytes pb <> None ->
      snd (fst (Verify vm pb st)) = pb
      /\ (st' = st \/ st' = fst (getProBlock vm (prntID (header pb)) st))).
Proof.
  cbv zeta. pose proof (Verify_state_cases vm pb st) as Hst.
  assert (proBlkDB (fst (fst (Verify vm pb st))) = proBlkDB st
          /\ wrpdToProIDDB (fst (fst (Verify vm pb st))) = wrpdToProIDDB st
          /\ baseDB (fst (fst (Verify vm pb st))) = baseDB st) as (Hp & Hw & Hb).
  { destruct Hst as [-> | ->]; [auto|].
    apply (getProBlock_stores vm (prntID (header pb)) st). }
  split; [exact Hp|]. split; [exact Hw|]. split; [exact Hb|].
  intros Hbytes. split; [|exact Hst].
  assert (snd (fst (Verify vm pb st)) = pb
          \/ snd (fst (Verify vm pb st)) = setBlockBytes (Some (contents (bytes pb))) pb)
    as [-> | ->]; [|reflexivity|].
  { unfold Verify.
    pose proof (Verify_restores pb) as Hrest. cbv zeta in Hrest.
    repeat (match goal with
            | |- context [if ?c then _ else _] => destruct c
            | |- context [match ?x with _ => _ end] => destruct x
            end; cbn [fst snd]; auto).
    all: cbv zeta; rewrite ?Hrest; cbn [fst snd]; auto. }
  destruct pb as [h c i [b|]]; [reflexivity | contradiction].
Qed.

(** Once the version is current, the inner block's error is returned as
    it is, before the parent is looked up; whatever makes the parent lookup
    fail, [Verify] reports [ErrProBlkNotFound]; and a node id that cannot be
    derived is reported once the heights and the parent's timestamp have
    passed.  In each case the receiver is left as it was. *)
Theorem Verify_early_errors `{Extern} (vm : VM) (pb : ProposerBlock) (st : innerState) :
  version (header pb) = proBlkVersion ->
  (forall err, blk_Verify (coreBlk pb) = Some err -> Verify vm pb st = (st, pb, Some err))
  /\ (forall st' err, blk_Verify (coreBlk pb) = None ->
        getProBlock vm (prntID (header pb)) st = (st', Fail err) ->
        Verify vm pb st = (st, pb, Some ErrProBlkNotFound))
  /\ (forall st' prntBlk err,
        passesChecks1to3 vm pb st st' prntBlk ->
        passesHeightChecks vm pb prntBlk ->
        timestamp (header prntBlk) <= timestamp (header pb) ->
        ToShortID_PubkeyBytesToAddress (Raw (valCert (header pb))) = Fail err ->
        Verify vm pb st = (st', pb, Some ErrInvalidNodeID)).
Proof.
  intros Hv. split; [|split].
  - intros err Hi. unfold Verify. rewrite Hv, Hi. reflexivity.
  - intros st' err Hi Hp. unfold Verify. rewrite Hv, Hi, Hp. cbn [negb Z.eqb proBlkVersion].
    unfold getProBlock, Get in Hp.
    repeat (match type of Hp with
            | context [match ?x with _ => _ end] => destruct x
            | context [let '(_, _) := ?x in _] => destruct x
            end; try discriminate); injection Hp as <- _; reflexivity.
  - intros st' prntBlk err (_ & Hi & Hp) [Hh1 Hh2] Ht Hn.
    unfold Verify. rewrite Hv, Hi, Hp, Hn. cbn [negb Z.eqb proBlkVersion].
    destruct (Z.ltb_spec (pChainHeight (header pb)) (pChainHeight (header prntBlk))); [lia|].
    destruct (Z.gtb_spec (pChainHeight (header pb)) (vm_pChainHeight vm)); [lia|].
    destruct (Z.ltb_spec (timestamp (header pb)) (timestamp (header prntBlk))); [lia|].
    reflexivity.
Qed.

(** The checks before the signature do not read the signature. *)
Lemma passes_setHeaderSignature `{Extern} vm pb sig st st' prntBlk nodeID :
  (passesChecks1to3 vm pb st st' prntBlk ->
   passesChecks1to3 vm (setHeaderSignature sig pb) st st' prntBlk)
  /\ (passesHeightChecks vm pb prntBlk ->
      passesHeightChecks vm (setHeaderSignature sig pb) prntBlk)
  /\ (passesTimestampChecks vm pb prntBlk nodeID ->
      passesTimestampChecks vm (setHeaderSignature sig pb) prntBlk nodeID).
Proof. split; [|split]; intros Hp; exact Hp. Qed.

(** A block that passes checks 1 to 9 and is then signed by [sign] is
    accepted by [Verify] exactly when its certificate accepts, over the
    envelope without signature, the signature the VM's signer gave for the
    hash of that same envelope. *)
Theorem sign_then_Verify `{Extern} (vm : VM) (pb pb' prntBlk : ProposerBlock)
    (st st' : innerState) (nodeID : ShortID) :
  sign vm pb = (pb', None) ->
  passesChecks1to3 vm pb st st' prntBlk ->
  passesHeightChecks vm pb prntBlk ->
  passesTimestampChecks vm pb prntBlk nodeID ->
  exists signKey sig,
    vm_stakingSigner vm = Some signKey
    /\ signKey (ComputeHash256Array (signedEnvelope pb)) = Ok sig
    /\ pb' = setHeaderSignature sig pb
    /\ verifyError vm pb' st
       = match CheckSignature (valCert (header pb)) (SignatureAlgorithm (valCert (header pb)))
                              (signedEnvelope pb) sig with
         | Some _ => Some ErrInvalidSignature
         | None => None
         end.
Proof.
  intros Hs H1 H2 H3. unfold sign in Hs. rewrite getBytes_cleared in Hs.
  destruct (vm_stakingSigner vm) as [signKey|]; [|discriminate].
  destruct (signKey _) as [sig|] eqn:Hk; [|discriminate].
  injection Hs as <-.
  assert (setHeaderSignature sig (setHeaderSignature [] pb) = setHeaderSignature sig pb)
    as -> by (destruct pb as [[v p t h c s] core i b]; reflexivity).
  exists signKey, sig. repeat split; auto.
  destruct (passes_setHeaderSignature vm pb sig st st' prntBlk nodeID) as (P1 & P2 & P3).
  unfold verifyError.
  rewrite (Verify_signature_step vm (setHeaderSignature sig pb) prntBlk st st' nodeID
             (P1 H1) (P2 H2) (P3 H3)).
  reflexivity.
Qed.

(** ** Construction *)

(** A block built by [NewProBlock] has the hash of its bytes as id, the
    given inner block, and the given header up to the signature (the given
    header itself when not signing).  Its bytes are the given ones when
    there are some, also when the header has just been signed, and
    otherwise the envelope of its final header. *)
Theorem NewProBlock_ok `{Extern} (vm : VM) (hdr : ProposerBlockHeader) (sb : Block)
    (bytes_ : option (list byte)) (signBlk : bool) (blk : ProposerBlock) :
  NewProBlock vm hdr sb bytes_ signBlk = Ok blk ->
  id blk = ComputeHash256Array (contents (bytes blk))
  /\ coreBlk blk = sb
  /\ setSignature [] (header blk) = setSignature [] hdr
  /\ (signBlk = false -> header blk = hdr)
  /\ bytes blk = match bytes_ with
                 | Some bs => Some bs
                 | None => Some (getBytes blk)
                 end.
Proof.
  unfold NewProBlock, sign.
  destruct signBlk.
  - destruct (vm_stakingSigner vm) as [signKey|]; [|discriminate].
    destruct (signKey _) as [sig|]; [|discriminate].
    destruct bytes_ as [bs|]; intros [= <-]; cbn; repeat split; auto; discriminate.
  - destruct bytes_ as [bs|]; intros [= <-]; cbn; repeat split; auto;
      destruct hdr; reflexivity.
Qed.

(** [NewProBlock] fails only when it is asked to sign and signing fails:
    the VM's key is no signer ([ErrInvalidTLSKey]) or the signer returns
    the error. *)
Theorem NewProBlock_failure `{Extern} (vm : VM) (hdr : ProposerBlockHeader) (sb : Block)
    (bytes_ : option (list byte)) (signBlk : bool) (err : error) :
  NewProBlock vm hdr sb bytes_ signBlk = Fail err ->
  signBlk = true
  /\ ((vm_stakingSigner vm = None /\ err = ErrInvalidTLSKey)
      \/ exists signKey,
           vm_stakingSigner vm = Some signKey
           /\ signKey (ComputeHash256Array
                         (signedEnvelope {| header := hdr; coreBlk := sb; id := zeroID;
                                            bytes := bytes_ |})) = Fail err).
Proof.
  unfold NewProBlock, sign. rewrite getBytes_cleared. intros Hf.
  destruct signBlk; [split; [reflexivity|] | destruct bytes_; discriminate].
  destruct (vm_stakingSigner vm) as [signKey|].
  - destruct (signKey _) as [sig|e] eqn:Hk.
    + destruct bytes_; discriminate.
    + injection Hf as <-. right. eauto.
  - injection Hf as <-. left. auto.
Qed.

(** [Bytes] computes the bytes once: the block it leaves holds them, and
    [Bytes] on that block returns them again even after the header was
    given another signature. *)
Theorem Bytes_stable (pb : ProposerBlock) :
  let '(bs, pb') := Bytes pb in
  bytes pb' = Some bs
  /\ header pb' = header pb /\ coreBlk pb' = coreBlk pb /\ id pb' = id pb
  /\ forall sig, Bytes (setHeaderSignature sig pb') = (bs, setHeaderSignature sig pb').
Proof.
  unfold Bytes. destruct (bytes pb) as [bs|] eqn:Hb; cbn.
  - repeat split; auto. intros sig. now rewrite Hb.
  - repeat split; auto.
Qed.

(** ** Committing and reading back *)

Lemma commitBlk_Ok_inv (blk : ProposerBlock) (st st' : innerState) :
  commitBlk blk st = (st', None) ->
  kv_putErr (proBlkDB st) = None /\ kv_putErr (wrpdToProIDDB st) = None
  /\ vdb_commitBatchErr (baseDB st) = None /\ vdb_writeErr (baseDB st) = None
  /\ st' = committed blk st.
Proof.
  unfold commitBlk, Put, Abort, committed.
  destruct (kv_putErr (proBlkDB st)) eqn:Hp; cbn; [discriminate|].
  destruct (kv_putErr (wrpdToProIDDB st)) eqn:Hw; cbn; [discriminate|].
  destruct (vdb_commitBatchErr (baseDB st)) eqn:Hb; cbn; [discriminate|].
  intros [= <- He]. repeat split; auto.
Qed.

(** [commitBlk] succeeds exactly when neither [Put], nor [CommitBatch], nor
    the batch write fails.  It then leaves the caches as they were and adds
    two records: the block's bytes under its id in the primary store, and,
    in the inverse store under the inner id, the inverse cache's entry for
    it (32 zero bytes when there is none). *)
Theorem commitBlk_success (blk : ProposerBlock) (st st' : innerState) :
  commitBlk blk st = (st', None)
  <-> kv_putErr (proBlkDB st) = None /\ kv_putErr (wrpdToProIDDB st) = None
      /\ vdb_commitBatchErr (baseDB st) = None /\ vdb_writeErr (baseDB st) = None
      /\ st' = committed blk st.
Proof.
  split; [apply commitBlk_Ok_inv|].
  unfold commitBlk, Put, Abort, committed.
  intros (Hp & Hw & Hb & He & ->). rewrite Hp. cbn. rewrite Hw. cbn. rewrite Hb, He.
  reflexivity.
Qed.

(** Nothing is rolled back when [commitBlk] fails: the record of a [Put]
    that succeeded stays in its store.  After a failure of the inverse
    [Put] the primary store holds the block's bytes; after a failure of
    [CommitBatch] or of the batch write both stores hold their record. *)
Theorem commitBlk_no_rollback (blk : ProposerBlock) (st st' : innerState) (err : error) :
  commitBlk blk st = (st', Some err) ->
  kv_putErr (proBlkDB st) = None ->
  kv_data (proBlkDB st') !! id blk = Some (contents (bytes blk))
  /\ (kv_putErr (wrpdToProIDDB st) = None ->
      kv_data (wrpdToProIDDB st') !! blk_ID (coreBlk blk)
      = Some (default zeroID (wrpdToProID st !! blk_ID (coreBlk blk)))).
Proof.
  unfold commitBlk, Put, Abort, wipeFromCacheProBlk. intros Hc Hp. revert Hc.
  rewrite Hp. cbn.
  destruct (kv_putErr (wrpdToProIDDB st)) eqn:Hw; cbn.
  { destruct (knownProBlocks st !! ID_of blk); intros [= <- _]; cbn;
      (split; [apply lookup_insert_eq | discriminate]). }
  destruct (vdb_commitBatchErr (baseDB st)); cbn.
  { destruct (knownProBlocks st !! ID_of blk); intros [= <- _]; cbn;
      (split; [|intros _]; apply lookup_insert_eq). }
  intros [= <- _]. cbn. split; [|intros _]; apply lookup_insert_eq.
Qed.

(** A committed block is read back after the caches were wiped: when its
    bytes unmarshal to its header and inner bytes, the inner parser gives
    its inner block back and its id is the hash of its bytes, [getProBlock]
    returns the block itself and caches it again; and when the inverse
    cache held its id at the commit, so does the lookup by inner id. *)
Theorem commit_wipe_lookup `{Extern} (vm : VM) (blk : ProposerBlock) (bs : list byte)
    (st st' : innerState) :
  commitBlk blk st = (st', None) ->
  bytes blk = Some bs ->
  unmarshal zeroMarshalling bs = (toMarshalling blk, None) ->
  vm_ParseBlock vm (blk_Bytes (coreBlk blk)) = Ok (coreBlk blk) ->
  id blk = ComputeHash256Array bs ->
  getProBlock vm (id blk) (wipeCache st') = (cacheProBlk blk (wipeCache st'), Ok blk)
  /\ (wrpdToProID st !! blk_ID (coreBlk blk) = Some (id blk) -> len (id blk) = IDLen ->
      getBlockFromWrappedBlkID vm (blk_ID (coreBlk blk)) (wipeCache st')
      = (cacheProBlk blk (wipeCache st'), Ok (Some blk))).
Proof.
  intros Hc Hb Hu Hp Hid. apply commitBlk_Ok_inv in Hc as (_ & _ & _ & _ & ->).
  assert (forall st0, knownProBlocks st0 = ∅ ->
            kv_data (proBlkDB st0) !! id blk = Some bs ->
            getProBlock vm (id blk) st0 = (cacheProBlk blk st0, Ok blk)) as Hget.
  { intros st0 Hk Hs. unfold getProBlock, Get. rewrite Hk, lookup_empty, Hs, Hu.
    cbn [toMarshalling wrpdBytes mHeader]. rewrite Hp, NewProBlock_unsigned, <- Hid, <- Hb.
    destruct blk; reflexivity. }
  split.
  - apply Hget; [reflexivity|]. cbn. rewrite Hb. apply lookup_insert_eq.
  - intros Hw Hl. unfold getBlockFromWrappedBlkID, Get.
    cbn [wipeCache setCaches wrpdToProID wrpdToProIDDB kv_data committed].
    rewrite lookup_empty, lookup_insert_eq, Hw. cbn [default].
    rewrite copy_into_same_length by (unfold IDLen, len in Hl; cbn; lia).
    rewrite Hget; [reflexivity | reflexivity |].
    cbn. rewrite Hb. apply lookup_insert_eq.
Qed.

(** After a successful [Accept], a parent that was only cached and never
    committed is gone: [Parent] returns the missing block of the parent
    id. *)
Theorem Parent_after_Accept `{Extern} (vm : VM) (pb : ProposerBlock) (st : innerState) :
  blk_Accept (coreBlk pb) = None ->
  kv_data (proBlkDB st) !! prntID (header pb) = None ->
  Parent vm pb (fst (Accept pb st))
  = (fst (Accept pb st), MissingBlock (prntID (header pb))).
Proof.
  intros Ha Hs. unfold Accept. rewrite Ha. cbn [fst].
  unfold Parent, getProBlock, Get, wipeFromCacheProBlk.
  destruct (knownProBlocks st !! prntID (header pb)) eqn:Hk; cbn.
  - now rewrite lookup_delete_eq, Hs.
  - now rewrite Hk, Hs.
Qed.

(** ** The caches, together *)

(** Two decorated blocks over one inner block share the inverse entry:
    when both are cached and the first is wiped, the second stays in the
    primary cache but the inverse cache no longer knows its inner id. *)
Theorem wipe_shared_inner (b1 b2 : ProposerBlock) (st : innerState) :
  id b1 <> id b2 ->
  blk_ID (coreBlk b1) = blk_ID (coreBlk b2) ->
  let st' := wipeFromCacheProBlk (id b1) (cacheProBlk b2 (cacheProBlk b1 st)) in
  knownProBlocks st' !! id b2 = Some b2
  /\ knownProBlocks st' !! id b1 = None
  /\ wrpdToProID st' !! blk_ID (coreBlk b2) = None.
Proof.
  intros Hne Hcore. cbv zeta.
  unfold wipeFromCacheProBlk, cacheProBlk, ID_of.
  cbn [knownProBlocks wrpdToProID setCaches].
  rewrite lookup_insert_ne by congruence. rewrite lookup_insert_eq.
  cbn [knownProBlocks wrpdToProID setCaches].
  rewrite Hcore. split; [|split].
  - rewrite lookup_delete_ne by congruence. apply lookup_insert_eq.
  - apply lookup_delete_eq.
  - apply lookup_delete_eq.
Qed.

Lemma inverseSound_wipe i st : inverseSound st -> inverseSound (wipeFromCacheProBlk i st).
Proof.
  intros Hs. unfold wipeFromCacheProBlk.
  destruct (knownProBlocks st !! i) as [b|] eqn:Hb; [|exact Hs].
  intros k j. cbn [knownProBlocks wrpdToProID setCaches].
  rewrite lookup_delete. destruct (decide (blk_ID (coreBlk b) = k)); [discriminate|].
  intros Hk. destruct (Hs k j Hk) as (blk & Hblk & Hcore).
  exists blk. split; [|exact Hcore].
  rewrite lookup_delete_ne; [exact Hblk|]. intros ->. congruence.
Qed.

Lemma inverseSound_cache b st :
  inverseSound st ->
  (forall b', knownProBlocks st !! id b = Some b' ->
              blk_ID (coreBlk b') = blk_ID (coreBlk b)) ->
  inverseSound (cacheProBlk b st).
Proof.
  intros Hs Hsame k j. unfold cacheProBlk, ID_of.
  cbn [knownProBlocks wrpdToProID setCaches].
  rewrite lookup_insert. destruct (decide (blk_ID (coreBlk b) = k)) as [<-|Hk].
  - intros [= <-]. exists b. now rewrite lookup_insert_eq.
  - intros Hj. destruct (Hs k j Hj) as (blk & Hblk & Hcore).
    destruct (decide (id b = j)) as [<-|Hne].
    + exfalso. apply Hk. rewrite <- Hcore. symmetry. now apply Hsame.
    + exists blk. now rewrite lookup_insert_ne.
Qed.

Lemma inverseSound_stores st st' :
  knownProBlocks st' = knownProBlocks st -> wrpdToProID st' = wrpdToProID st ->
  inverseSound st -> inverseSound st'.
Proof. unfold inverseSound. intros -> ->. auto. Qed.

(** The caches stay sound (every inverse entry names a cached block that
    wraps its inner id) under every operation of the store and of the
    block: eviction, wiping, committing, accepting, rejecting, and caching a
    block whose id is free or held by a block over the same inner block. *)
Theorem inverseSound_kept (st : innerState) :
  inverseSound st ->
  (forall i, inverseSound (wipeFromCacheProBlk i st))
  /\ inverseSound (wipeCache st)
  /\ (forall blk, inverseSound (fst (commitBlk blk st)))
  /\ (forall pb, inverseSound (fst (Accept pb st)))
  /\ (forall pb, inverseSound (fst (Reject pb st)))
  /\ (forall blk,
        (forall b', knownProBlocks st !! id blk = Some b' ->
                    blk_ID (coreBlk b') = blk_ID (coreBlk blk)) ->
        inverseSound (cacheProBlk blk st)).
Proof.
  intros Hs. split; [|split; [|split; [|split; [|split]]]].
  - intros i. now apply inverseSound_wipe.
  - intros k j. cbn. now rewrite lookup_empty.
  - intros blk. unfold commitBlk, Put, Abort.
    destruct (kv_putErr (proBlkDB st)); cbn.
    { apply inverseSound_wipe. revert Hs. now apply inverseSound_stores. }
    destruct (kv_putErr (wrpdToProIDDB st)); cbn.
    { apply inverseSound_wipe. revert Hs. now apply inverseSound_stores. }
    destruct (vdb_commitBatchErr (baseDB st)); cbn.
    { apply inverseSound_wipe. revert Hs. now apply inverseSound_stores. }
    revert Hs. now apply inverseSound_stores.
  - intros pb. unfold Accept. destruct (blk_Accept _); [exact Hs|].
    now apply inverseSound_wipe.
  - intros pb. unfold Reject. destruct (blk_Reject _); [exact Hs|].
    now apply inverseSound_wipe.
  - intros blk Hsame. now apply inverseSound_cache.
Qed.

(** In sound caches, the lookup of an inner id that the inverse cache
    knows returns a block, and one that wraps that inner id: it does not
    return a nil block without error. *)
Theorem lookup_by_inner_id_cached `{Extern} (vm : VM) (k i : ID) (st : innerState) :
  inverseSound st ->
  wrpdToProID st !! k = Some i ->
  exists blk, getBlockFromWrappedBlkID vm k st = (st, Ok (Some blk))
              /\ knownProBlocks st !! i = Some blk
              /\ blk_ID (coreBlk blk) = k.
Proof.
  intros Hs Hk. destruct (Hs k i Hk) as (blk & Hblk & Hcore).
  exists blk. unfold getBlockFromWrappedBlkID. rewrite Hk, Hblk. auto.
Qed.

Lemma keyed_caches `{Extern} st st' :
  (forall i blk, knownProBlocks st' !! i = Some blk ->
                 knownProBlocks st !! i = Some blk \/ id blk = i) ->
  kv_data (proBlkDB st') = kv_data (proBlkDB st) ->
  keyed st -> keyed st'.
Proof.
  intros Hk Hs [Hc Hd]. split.
  - intros i blk Hi. destruct (Hk i blk Hi); auto.
  - rewrite Hs. exact Hd.
Qed.

Lemma keyed_same `{Extern} st st' :
  knownProBlocks st' = knownProBlocks st ->
  kv_data (proBlkDB st') = kv_data (proBlkDB st) ->
  keyed st -> keyed st'.
Proof. unfold keyed. intros -> ->. auto. Qed.

Lemma keyed_wipe `{Extern} i st : keyed st -> keyed (wipeFromCacheProBlk i st).
Proof.
  apply keyed_caches.
  - unfold wipeFromCacheProBlk. intros j blk.
    destruct (knownProBlocks st !! i); cbn [knownProBlocks setCaches]; [|auto].
    rewrite lookup_delete. destruct (decide (i = j)); [discriminate | auto].
  - unfold wipeFromCacheProBlk. now destruct (knownProBlocks st !! i).
Qed.

Lemma keyed_cache `{Extern} blk st : keyed st -> keyed (cacheProBlk blk st).
Proof.
  apply keyed_caches; [|reflexivity].
  intros j b. unfold cacheProBlk, ID_of. cbn [knownProBlocks setCaches].
  rewrite lookup_insert. destruct (decide (id blk = j)) as [<-|]; [|auto].
  intros [= <-]. auto.
Qed.

Lemma keyed_getProBlock `{Extern} vm i st : keyed st -> keyed (fst (getProBlock vm i st)).
Proof.
  intros Hk. unfold getProBlock, Get.
  destruct (knownProBlocks st !! i); [exact Hk|].
  destruct (kv_data (proBlkDB st) !! i) as [proBytes|]; [|exact Hk].
  destruct (unmarshal zeroMarshalling proBytes) as [m [e|]]; [exact Hk|].
  destruct (vm_ParseBlock vm (wrpdBytes m)); [|exact Hk].
  rewrite NewProBlock_unsigned. now apply keyed_cache.
Qed.

(** Both keyings are kept by every operation, provided the blocks that are
    committed have the hash of their bytes as id (as [NewProBlock] builds
    them). *)
Theorem keyed_kept `{Extern} (st : innerState) :
  keyed st ->
  (forall blk, keyed (cacheProBlk blk st))
  /\ (forall i, keyed (wipeFromCacheProBlk i st))
  /\ keyed (wipeCache st)
  /\ (forall blk, id blk = ComputeHash256Array (contents (bytes blk)) ->
                  keyed (fst (commitBlk blk st)))
  /\ (forall pb, keyed (fst (Accept pb st)))
  /\ (forall pb, keyed (fst (Reject pb st)))
  /\ (forall vm i, keyed (fst (getProBlock vm i st))).
Proof.
  intros Hk. split; [|split; [|split; [|split; [|split; [|split]]]]].
  - intros blk. now apply keyed_cache.
  - intros i. now apply keyed_wipe.
  - destruct Hk as [_ Hd]. split; [|exact Hd]. intros i blk. cbn. now rewrite lookup_empty.
  - intros blk Hid.
    assert (keyed (setProBlkDB (mkKVStore (<[id blk := contents (bytes blk)]>
                                             (kv_data (proBlkDB st))) None) st)) as Hk1.
    { destruct Hk as [Hc Hd]. split; [exact Hc|]. intros i bs. cbn.
      rewrite lookup_insert. destruct (decide (id blk = i)) as [<-|]; [|apply Hd].
      intros [= <-]. now rewrite Hid. }
    unfold commitBlk, Put, Abort.
    destruct (kv_putErr (proBlkDB st)); cbn.
    { apply keyed_wipe. revert Hk. now apply keyed_same. }
    destruct (kv_putErr (wrpdToProIDDB st)); cbn.
    { apply keyed_wipe. revert Hk1. now apply keyed_same. }
    destruct (vdb_commitBatchErr (baseDB st)); cbn.
    { apply keyed_wipe. revert Hk1. now apply keyed_same. }
    revert Hk1. now apply keyed_same.
  - intros pb. unfold Accept. destruct (blk_Accept _); [exact Hk|]. now apply keyed_wipe.
  - intros pb. unfold Reject. destruct (blk_Reject _); [exact Hk|]. now apply keyed_wipe.
  - intros vm i. now apply keyed_getProBlock.
Qed.

(** In a keyed state, the block [getProBlock] returns for an id has that
    id, and is in the primary cache under it afterwards. *)
Theorem getProBlock_returns_requested `{Extern} (vm : VM) (i : ID) (st st' : innerState)
    (blk : ProposerBlock) :
  keyed st ->
  getProBlock vm i st = (st', Ok blk) ->
  id blk = i /\ knownProBlocks st' !! i = Some blk.
Proof.
  intros [Hc Hd]. unfold getProBlock, Get.
  destruct (knownProBlocks st !! i) as [b|] eqn:Hb.
  { intros [= <- <-]. split; [now apply Hc | exact Hb]. }
  destruct (kv_data (proBlkDB st) !! i) as [proBytes|] eqn:Hs; [|discriminate].
  destruct (unmarshal zeroMarshalling proBytes) as [m [e|]]; [discriminate|].
  destruct (vm_ParseBlock vm (wrpdBytes m)); [|discriminate].
  rewrite NewProBlock_unsigned. intros [= <- <-].
  unfold cacheProBlk, ID_of. cbn [id knownProBlocks setCaches].
  rewrite (Hd i proBytes Hs). split; [reflexivity | apply lookup_insert_eq].
Qed.

Lemma inverseSound_getProBlock `{Extern} vm i st :
  keyed st -> inverseSound st -> inverseSound (fst (getProBlock vm i st)).
Proof.
  intros [Hc Hd] Hs. unfold getProBlock, Get.
  destruct (knownProBlocks st !! i) eqn:Hb; [exact Hs|].
  destruct (kv_data (proBlkDB st) !! i) as [proBytes|] eqn:Hp; [|exact Hs].
  destruct (unmarshal zeroMarshalling proBytes) as [m [e|]]; [exact Hs|].
  destruct (vm_ParseBlock vm (wrpdBytes m)); [|exact Hs].
  rewrite NewProBlock_unsigned. cbn [fst].
  apply inverseSound_cache; [exact Hs|].
  intros b'. cbn [id]. rewrite (Hd i proBytes Hp), Hb. discriminate.
Qed.

(** In a keyed state with sound caches, the caches stay sound under the
    operations that may load a block from the store: [getProBlock], the
    lookup by inner id, [Parent] and [Verify]. *)
Theorem lookups_keep_sound `{Extern} (vm : VM) (st : innerState) :
  keyed st -> inverseSound st ->
  (forall i, inverseSound (fst (getProBlock vm i st)))
  /\ (forall k, inverseSound (fst (getBlockFromWrappedBlkID vm k st)))
  /\ (forall pb, inverseSound (fst (Parent vm pb st)))
  /\ (forall pb, inverseSound (fst (fst (Verify vm pb st)))).
Proof.
  intros Hk Hs. split; [|split; [|split]].
  - intros i. now apply inverseSound_getProBlock.
  - intros k. unfold getBlockFromWrappedBlkID, Get.
    destruct (wrpdToProID st !! k); [exact Hs|].
    destruct (kv_data (wrpdToProIDDB st) !! k) as [proIDBytes|]; [|exact Hs].
    pose proof (inverseSound_getProBlock vm (copy_into zeroID proIDBytes) st Hk Hs) as Hg.
    now destruct (getProBlock vm (copy_into zeroID proIDBytes) st) as [st' [b|e]].
  - intros pb. unfold Parent.
    pose proof (inverseSound_getProBlock vm (prntID (header pb)) st Hk Hs) as Hg.
    now destruct (getProBlock vm (prntID (header pb)) st) as [st' [b|e]].
  - intros pb. destruct (Verify_state_cases vm pb st) as [-> | ->]; [exact Hs|].
    now apply inverseSound_getProBlock.
Qed.

(** ** The codec, further *)

(** Whatever the packer's error, [marshal] and [unmarshal] report
    [ErrProBlkFailedParsing]. *)
Theorem codec_errors `{Extern} (mPb r : marshallingProposerBLock) (b : list byte) :
  (forall err, marshal mPb = Fail err -> err = ErrProBlkFailedParsing)
  /\ (forall m err, unmarshal r b = (m, Some err) -> err = ErrProBlkFailedParsing).
Proof.
  split.
  - intros err. apply marshal_error.
  - intros m err. apply unmarshal_error.
Qed.

(** [unmarshal] does not check that it consumed its input: bytes after a
    well-formed envelope are ignored. *)
Theorem unmarshal_trailing_bytes `{Extern} (x r : marshallingProposerBLock)
    (extra : list byte) :
  wellFormed x -> len (prntID (mHeader r)) = IDLen ->
  unmarshal r (envelope x ++ extra) = (x, None).
Proof.
  intros (Hv & Hp & Ht & Hh & Hc & Hsz) Hr32.
  rewrite len_envelope in Hsz. unfold MaxEnvelopeSize, IDLen in *.
  destruct x as [[v prnt ts ht cert sig] wb].
  cbn [mHeader wrpdBytes version prntID timestamp pChainHeight valCert signature] in *.
  pose proof (len_nonneg prnt). pose proof (len_nonneg (Raw cert)).
  pose proof (len_nonneg sig). pose proof (len_nonneg wb).
  assert (len prnt < 2 ^ 32) as Hlp by lia.
  assert (len (Raw cert) < 2 ^ 32) as Hlc by lia.
  assert (len sig < 2 ^ 32) as Hls by lia.
  assert (len wb < 2 ^ 32) as Hlw by lia.
  unfold unmarshal.
  set (input := envelope _ ++ extra).
  assert (reading (wrappers.mkPacker None 0 input 0) input) as Hr.
  { unfold reading; cbn [wrappers.Err wrappers.Offset wrappers.Bytes].
    split; [reflexivity|]. split; [pose proof (len_nonneg input); lia | reflexivity]. }
  set (p0 := wrappers.mkPacker None 0 input 0) in *. clearbody p0.
  assert (input
          = be_encode 2 v
            ++ ((be_encode 4 (uint32 (len prnt)) ++ prnt)
            ++ (be_encode 8 (uint64 ts)
            ++ (be_encode 8 ht
            ++ ((be_encode 4 (uint32 (len (Raw cert))) ++ Raw cert)
            ++ ((be_encode 4 (uint32 (len sig)) ++ sig)
            ++ ((be_encode 4 (uint32 (len wb)) ++ wb) ++ extra))))))) as Hin.
  { subst input. unfold envelope.
    cbn [mHeader wrpdBytes version prntID timestamp pChainHeight valCert signature].
    repeat rewrite <- app_assoc. reflexivity. }
  rewrite Hin in Hr. clear Hin. clearbody input.
  destruct (UnpackShort_reading _ _ _ Hr) as [-> Hr0]. clear Hr. rename Hr0 into Hr.
  cbv beta iota zeta. rewrite (reading_not_errored _ _ Hr).
  destruct (UnpackBytes_reading _ _ _ Hlp Hr) as [-> Hr1]. clear Hr.
  cbv beta iota zeta. rewrite (reading_not_errored _ _ Hr1).
  cbn [mHeader wrpdBytes version prntID timestamp pChainHeight valCert signature].
  assert ((len prnt =? IDLen) = true) as -> by (apply Z.eqb_eq; exact Hp).
  cbn [negb].
  destruct (UnpackLong_reading _ _ _ Hr1) as [-> Hr]. clear Hr1.
  cbv beta iota zeta. rewrite (reading_not_errored _ _ Hr).
  destruct (UnpackLong_reading _ _ _ Hr) as [-> Hr1]. clear Hr.
  cbv beta iota zeta. rewrite (reading_not_errored _ _ Hr1).
  destruct (UnpackX509Certificate_reading _ _ _ Hc Hlc Hr1) as (q & -> & Hq & Hr2).
  clear Hr1. cbv beta iota zeta. rewrite (reading_not_errored _ _ Hr2).
  destruct (UnpackBytes_reading _ _ _ Hls Hr2) as [-> Hr3]. clear Hr2.
  cbv beta iota zeta. rewrite (reading_not_errored _ _ Hr3).
  destruct (UnpackBytes_reading _ _ _ Hlw Hr3) as [-> Hr4]. clear Hr3.
  cbv beta iota zeta. rewrite (reading_not_errored _ _ Hr4).
  unfold setSignature.
  cbn [mHeader wrpdBytes version prntID timestamp pChainHeight valCert signature].
  rewrite Hq.
  assert (uint16 v = v) as -> by (apply Z.mod_small; lia).
  assert (copy_into (prntID (mHeader r)) prnt = prnt) as ->
    by (apply copy_into_same_length; unfold len in *; lia).
  assert (uint64 (uint64 ts) = uint64 ts) as -> by (apply Z.mod_mod; lia).
  rewrite int64_uint64 by lia.
  assert (uint64 ht = ht) as -> by (apply Z.mod_small; lia).
  reflexivity.
Qed.

(** With the packer of the specification's layout: [marshal] succeeds
    exactly on the envelopes of at most [MaxEnvelopeSize] = 2^18 bytes, and
    what it returns is the envelope. *)
Theorem marshal_iff_fits (mPb : marshallingProposerBLock) (b : list byte) :
  marshal mPb = Ok b <-> len (envelope mPb) <= MaxEnvelopeSize /\ b = envelope mPb.
Proof.
  rewrite marshal_spec. destruct (Z.leb_spec (len (envelope mPb)) MaxEnvelopeSize); split.
  - intros [= <-]. auto.
  - intros [_ ->]. reflexivity.
  - discriminate.
  - lia.
Qed.

(** With the packer of the specification's layout: two well-formed
    headers with inner bytes that marshal to the same bytes are equal. *)
Theorem marshal_injective `{Extern} (x y : marshallingProposerBLock) :
  wellFormed x -> wellFormed y -> marshal x = marshal y -> x = y.
Proof.
  intros Hx Hy Heq.
  assert (marshal x = Ok (envelope x)) as Ex by (apply marshal_fits, Hx).
  assert (marshal y = Ok (envelope y)) as Ey by (apply marshal_fits, Hy).
  assert (envelope x = envelope y) as Henv by congruence.
  pose proof (unmarshal_envelope x zeroMarshalling Hx eq_refl) as Ux.
  pose proof (unmarshal_envelope y zeroMarshalling Hy eq_refl) as Uy.
  rewrite Henv in Ux. congruence.
Qed.

(** ** The hypotheses of the further theorems, on the examples *)

(** [childBlock] at 1005 s under [parentBlock] at 1000 s, with a delay of
    5 s and the clock at 1010 s. *)
Lemma Verify_ok_iff_example :
  @passesTimestampChecks exampleExtern exampleVM childBlock parentBlock (repeat x00 20)
  <-> timestamp (header parentBlock) <= timestamp (header childBlock)
      /\ @ToShortID_PubkeyBytesToAddress exampleExtern (Raw (valCert (header childBlock)))
         = Ok (repeat x00 20)
      /\ timestamp (header parentBlock) * Second
         + vm_BlkSubmissionDelay exampleVM (pChainHeight (header childBlock)) (repeat x00 20)
         <= timestamp (header childBlock) * Second
      /\ timestamp (header childBlock) * Second <= vm_now exampleVM + 10 * Second.
Proof.
  destruct (@Verify_ok_iff exampleExtern exampleVM childBlock exampleState) as [_ Hwin].
  apply Hwin.
  - cbn. lia.
  - vm_compute. split; [discriminate | reflexivity].
  - vm_compute. split; [discriminate | reflexivity].
  - vm_compute. split; [discriminate | reflexivity].
Defined.

(** [childBlock], whose [bytes] is not nil, verified in [exampleState]. *)
Lemma Verify_state_example :
  snd (fst (@Verify exampleExtern exampleVM childBlock exampleState)) = childBlock
  /\ (fst (fst (@Verify exampleExtern exampleVM childBlock exampleState)) = exampleState
      \/ fst (fst (@Verify exampleExtern exampleVM childBlock exampleState))
         = fst (@getProBlock exampleExtern exampleVM (prntID (header childBlock)) exampleState)).
Proof.
  destruct (@Verify_state exampleExtern exampleVM childBlock exampleState)
    as (_ & _ & _ & Hstate).
  apply Hstate. discriminate.
Defined.

Lemma inverseSound_newState : inverseSound newState.
Proof. intros k i. cbn. now rewrite lookup_empty. Qed.

Lemma keyed_newState `{Extern} : keyed newState.
Proof. split; intros i x; cbn; now rewrite lookup_empty. Qed.

Lemma inverseSound_exampleState : inverseSound exampleState.
Proof.
  apply inverseSound_cache; [apply inverseSound_newState|].
  intros b'. cbn. now rewrite lookup_empty.
Qed.

Lemma keyed_exampleState `{Extern} : keyed exampleState.
Proof. apply keyed_cache, keyed_newState. Qed.

(** An id that is in neither the cache nor the store. *)
Lemma getProBlock_failure_example :
  @getProBlock exampleExtern exampleVM (repeat x09 32) newState
  = (newState, Fail ErrProBlkNotFound)
  /\ knownProBlocks newState !! repeat x09 32 = None.
Proof.
  assert (@getProBlock exampleExtern exampleVM (repeat x09 32) newState
          = (newState, Fail ErrProBlkNotFound)) as Hg by (vm_compute; reflexivity).
  split; [exact Hg|].
  apply (@getProBlock_failure exampleExtern exampleVM (repeat x09 32) newState newState
           ErrProBlkNotFound Hg).
Defined.

(** The cached [parentBlock]. *)
Lemma getProBlock_success_example :
  @getProBlock exampleExtern exampleVM (id parentBlock) exampleState
  = (exampleState, Ok parentBlock)
  /\ (knownProBlocks exampleState !! id parentBlock = Some parentBlock
      \/ knownProBlocks exampleState !! id parentBlock = None).
Proof.
  assert (@getProBlock exampleExtern exampleVM (id parentBlock) exampleState
          = (exampleState, Ok parentBlock)) as Hg by (vm_compute; reflexivity).
  split; [exact Hg|].
  destruct (@getProBlock_success exampleExtern exampleVM (id parentBlock) exampleState
              exampleState parentBlock Hg) as [[Hc _] | [Hc _]]; auto.
Defined.

(** The child, whose version is current. *)
Lemma Verify_early_errors_example :
  (forall err, blk_Verify (coreBlk childBlock) = Some err ->
     @Verify exampleExtern exampleVM childBlock exampleState
     = (exampleState, childBlock, Some err))
  /\ version (header childBlock) = proBlkVersion.
Proof.
  split; [|reflexivity].
  apply (@Verify_early_errors exampleExtern exampleVM childBlock exampleState).
  reflexivity.
Defined.

Lemma example_passesTimestampChecks :
  @passesTimestampChecks exampleExtern exampleVM childBlock parentBlock (repeat x00 20).
Proof.
  unfold passesTimestampChecks. repeat split; try reflexivity; vm_compute; discriminate.
Qed.

(** The child, signed by [exampleVM] and verified under [parentBlock]. *)
Lemma sign_then_Verify_example :
  exists signKey sig,
    vm_stakingSigner exampleVM = Some signKey
    /\ signKey (@ComputeHash256Array exampleExtern (signedEnvelope childBlock)) = Ok sig
    /\ fst (@sign exampleExtern exampleVM childBlock) = setHeaderSignature sig childBlock
    /\ @verifyError exampleExtern exampleVM (fst (@sign exampleExtern exampleVM childBlock))
         exampleState
       = match @CheckSignature exampleExtern (valCert (header childBlock))
                 (SignatureAlgorithm (valCert (header childBlock)))
                 (signedEnvelope childBlock) sig with
         | Some _ => Some ErrInvalidSignature
         | None => None
         end.
Proof.
  apply (@sign_then_Verify exampleExtern exampleVM childBlock
           (fst (@sign exampleExtern exampleVM childBlock)) parentBlock
           exampleState exampleState (repeat x00 20)).
  - vm_compute. reflexivity.
  - apply example_passesChecks1to3; reflexivity.
  - unfold passesHeightChecks. cbn. lia.
  - apply example_passesTimestampChecks.
Defined.

(** [storedBlock] is what [NewProBlock] builds from its header and inner
    block. *)
Lemma NewProBlock_ok_example :
  @NewProBlock exampleExtern exampleVM (header childBlock) parsedCore None false
  = Ok storedBlock
  /\ id storedBlock = @ComputeHash256Array exampleExtern (contents (bytes storedBlock))
  /\ bytes storedBlock = Some (getBytes storedBlock).
Proof.
  assert (@NewProBlock exampleExtern exampleVM (header childBlock) parsedCore None false
          = Ok storedBlock) as Hn by (vm_compute; reflexivity).
  split; [exact Hn|].
  destruct (@NewProBlock_ok exampleExtern exampleVM (header childBlock) parsedCore None false
              storedBlock Hn) as (Hid & _ & _ & _ & Hb).
  split; [exact Hid | exact Hb].
Defined.

(** Signing with a key that is no signer. *)
Lemma NewProBlock_failure_example :
  @NewProBlock exampleExtern noSignerVM (header childBlock) parsedCore None true
  = Fail ErrInvalidTLSKey
  /\ true = true.
Proof.
  assert (@NewProBlock exampleExtern noSignerVM (header childBlock) parsedCore None true
          = Fail ErrInvalidTLSKey) as Hn by (vm_compute; reflexivity).
  split; [exact Hn|].
  apply (@NewProBlock_failure exampleExtern noSignerVM (header childBlock) parsedCore None
           true ErrInvalidTLSKey Hn).
Defined.

(** A commit whose inverse [Put] fails leaves the primary record. *)
Lemma commitBlk_no_rollback_example :
  snd (commitBlk parentBlock inversePutFailingState) = Some (ErrOther "closed")
  /\ kv_data (proBlkDB (fst (commitBlk parentBlock inversePutFailingState)))
       !! id parentBlock
     = Some (contents (bytes parentBlock)).
Proof.
  split; [vm_compute; reflexivity|].
  apply (commitBlk_no_rollback parentBlock inversePutFailingState
           (fst (commitBlk parentBlock inversePutFailingState)) (ErrOther "closed")).
  - vm_compute. reflexivity.
  - reflexivity.
Defined.

(** [storedBlock], cached, committed, and read back after a wipe. *)
Lemma commit_wipe_lookup_example :
  let st' := fst (commitBlk storedBlock (cacheProBlk storedBlock newState)) in
  @getProBlock exampleExtern exampleVM (id storedBlock) (wipeCache st')
  = (cacheProBlk storedBlock (wipeCache st'), Ok storedBlock)
  /\ @getBlockFromWrappedBlkID exampleExtern exampleVM (blk_ID (coreBlk storedBlock))
       (wipeCache st')
     = (cacheProBlk storedBlock (wipeCache st'), Ok (Some storedBlock)).
Proof.
  cbv zeta.
  destruct (@commit_wipe_lookup exampleExtern exampleVM storedBlock
              (envelope {| mHeader := header childBlock; wrpdBytes := [x07] |})
              (cacheProBlk storedBlock newState)
              (fst (commitBlk storedBlock (cacheProBlk storedBlock newState))))
    as [Hg Hw]; try (vm_compute; reflexivity).
  split; [exact Hg|]. apply Hw; vm_compute; reflexivity.
Defined.

(** [parentBlock] is cached and not committed. *)
Lemma Parent_after_Accept_example :
  @Parent exampleExtern exampleVM childBlock exampleState
  = (exampleState, ParentBlock parentBlock)
  /\ @Parent exampleExtern exampleVM childBlock (fst (Accept childBlock exampleState))
     = (fst (Accept childBlock exampleState), MissingBlock (prntID (header childBlock))).
Proof.
  split; [vm_compute; reflexivity|].
  apply (@Parent_after_Accept exampleExtern exampleVM childBlock exampleState).
  - reflexivity.
  - vm_compute. reflexivity.
Defined.

(** [parentBlock] and [siblingBlock] wrap the same inner block. *)
Lemma wipe_shared_inner_example :
  let st' := wipeFromCacheProBlk (id parentBlock)
               (cacheProBlk siblingBlock (cacheProBlk parentBlock newState)) in
  knownProBlocks st' !! id siblingBlock = Some siblingBlock
  /\ knownProBlocks st' !! id parentBlock = None
  /\ wrpdToProID st' !! blk_ID (coreBlk siblingBlock) = None.
Proof.
  apply (wipe_shared_inner parentBlock siblingBlock newState).
  - discriminate.
  - reflexivity.
Defined.

(** The new state is sound. *)
Lemma inverseSound_kept_example :
  (forall i, inverseSound (wipeFromCacheProBlk i newState))
  /\ inverseSound (wipeCache newState)
  /\ (forall blk, inverseSound (fst (commitBlk blk newState)))
  /\ (forall pb, inverseSound (fst (Accept pb newState)))
  /\ (forall pb, inverseSound (fst (Reject pb newState)))
  /\ (forall blk,
        (forall b', knownProBlocks newState !! id blk = Some b' ->
                    blk_ID (coreBlk b') = blk_ID (coreBlk blk)) ->
        inverseSound (cacheProBlk blk newState)).
Proof. apply (inverseSound_kept newState), inverseSound_newState. Defined.

(** The inner id of the cached [parentBlock]. *)
Lemma lookup_by_inner_id_cached_example :
  exists blk,
    @getBlockFromWrappedBlkID exampleExtern exampleVM (blk_ID (coreBlk parentBlock))
      exampleState = (exampleState, Ok (Some blk))
    /\ knownProBlocks exampleState !! id parentBlock = Some blk
    /\ blk_ID (coreBlk blk) = blk_ID (coreBlk parentBlock).
Proof.
  apply (@lookup_by_inner_id_cached exampleExtern exampleVM (blk_ID (coreBlk parentBlock))
           (id parentBlock) exampleState).
  - apply inverseSound_exampleState.
  - vm_compute. reflexivity.
Defined.

(** The new state is keyed. *)
Lemma keyed_kept_example :
  (forall blk, @keyed exampleExtern (cacheProBlk blk newState))
  /\ (forall i, @keyed exampleExtern (wipeFromCacheProBlk i newState))
  /\ @keyed exampleExtern (wipeCache newState)
  /\ (forall blk, id blk = @ComputeHash256Array exampleExtern (contents (bytes blk)) ->
                  @keyed exampleExtern (fst (commitBlk blk newState)))
  /\ (forall pb, @keyed exampleExtern (fst (Accept pb newState)))
  /\ (forall pb, @keyed exampleExtern (fst (Reject pb newState)))
  /\ (forall vm i, @keyed exampleExtern (fst (@getProBlock exampleExtern vm i newState))).
Proof. apply (@keyed_kept exampleExtern newState), keyed_newState. Defined.

(** The cached [parentBlock], asked for by its id. *)
Lemma getProBlock_returns_requested_example :
  id parentBlock = id parentBlock
  /\ knownProBlocks exampleState !! id parentBlock = Some parentBlock.
Proof.
  apply (@getProBlock_returns_requested exampleExtern exampleVM (id parentBlock)
           exampleState exampleState parentBlock).
  - apply keyed_exampleState.
  - vm_compute. reflexivity.
Defined.

(** The state in which [parentBlock] is cached is keyed and sound. *)
Lemma lookups_keep_sound_example :
  (forall i, inverseSound (fst (@getProBlock exampleExtern exampleVM i exampleState)))
  /\ (forall k, inverseSound
                  (fst (@getBlockFromWrappedBlkID exampleExtern exampleVM k exampleState)))
  /\ (forall pb, inverseSound (fst (@Parent exampleExtern exampleVM pb exampleState)))
  /\ (forall pb, inverseSound (fst (fst (@Verify exampleExtern exampleVM pb exampleState)))).
Proof.
  apply (@lookups_keep_sound exampleExtern exampleVM exampleState).
  - apply keyed_exampleState.
  - apply inverseSound_exampleState.
Defined.

(** The genesis envelope followed by two bytes. *)
Lemma unmarshal_trailing_bytes_example :
  @unmarshal exampleExtern zeroMarshalling (envelope zeroMarshalling ++ [x01; x02])
  = (zeroMarshalling, None).
Proof.
  apply (@unmarshal_trailing_bytes exampleExtern zeroMarshalling zeroMarshalling [x01; x02]).
  - apply wellFormed_genesis.
  - reflexivity.
Defined.

(** The genesis header, twice. *)
Lemma marshal_injective_example : zeroMarshalling = zeroMarshalling.
Proof.
  apply (@marshal_injective exampleExtern zeroMarshalling zeroMarshalling).
  - apply wellFormed_genesis.
  - apply wellFormed_genesis.
  - reflexivity.
Defined.
